(** * Covariance utilities of the DAPC code base ([dapc/cov_utils.py])

    A torch tensor is a record of its sizes and of an index function, and
    every torch operation the source calls (reshape, permute, cat, triu,
    repeat, unfold, broadcasting arithmetic, sum, matmul, eye) is given by
    its effect on indices.

    The four functions of [cov_utils.py] are embedded twice.  First over
    exact rational arithmetic, where the structural properties are proved.
    Then with the arithmetic of the entries as a parameter ([Dtype]): at
    [exact] this is the first embedding again, at [binary32] every
    operation on entries rounds as IEEE 754 single precision does, which is
    what the code computes on torch's default [float32] tensors.
    Properties that rest on an exact cancellation are proved in exact
    arithmetic and refuted at [binary32] on a concrete input.

    Library calls that leave rational arithmetic (scipy's [eigvalsh],
    torch's [logdet]) are arguments of the functions that call them. *)

From Stdlib Require Import String ZArith QArith Qminmax Lqa Lia Arith PeanoNat Bool List.
From Stdlib Require Import SpecFloat.
Import ListNotations.

Set Implicit Arguments.
Open Scope nat_scope.

(** ** Finite sums *)

Fixpoint sum_upto (n : nat) (f : nat -> Q) : Q :=
  match n with
  | O => 0%Q
  | S k => (sum_upto k f + f k)%Q
  end.

Definition Qnat (n : nat) : Q := inject_Z (Z.of_nat n).

(** ** Exceptions and results *)

Inductive exn : Type :=
| ValueError (msg : string)
| RuntimeError.

Inductive result (A : Type) : Type :=
| Return (a : A)
| Raise (e : exn).

Arguments Return {A} a.
Arguments Raise {A} e.

Definition bind {A B : Type} (r : result A) (k : A -> result B) : result B :=
  match r with
  | Return a => k a
  | Raise e => Raise e
  end.

Notation "x <- r ;; k" := (bind r (fun x => k))
  (at level 61, r at next level, right associativity).

(** ** Scalars *)

Definition Qltb (x y : Q) : bool := negb (Qle_bool y x).

(** ** Element types

    The arithmetic of the entries of a tensor.  [dt_cast] converts a
    Python number, given by its value, to the element type; the other
    fields are the operations torch and numpy apply to entries. *)
Record Dtype (F : Type) : Type :=
  mkDtype { dt_cast : Q -> F;
            dt_add : F -> F -> F;
            dt_sub : F -> F -> F;
            dt_mul : F -> F -> F;
            dt_div : F -> F -> F;
            dt_neg : F -> F;
            dt_ltb : F -> F -> bool;
            dt_min : F -> F -> F }.

(** Arithmetic without rounding. *)
Definition exact : Dtype Q :=
  mkDtype (fun q => q) Qplus Qminus Qmult Qdiv Qopp Qltb Qmin.

(** IEEE 754 binary32, torch's default [float32]: 24 bits of precision,
    rounding to nearest, ties to even. *)
Definition float32 : Type := spec_float.

Definition f32_add : float32 -> float32 -> float32 := SFadd 24 128.
Definition f32_sub : float32 -> float32 -> float32 := SFsub 24 128.
Definition f32_mul : float32 -> float32 -> float32 := SFmul 24 128.
Definition f32_div : float32 -> float32 -> float32 := SFdiv 24 128.

(** The float nearest to a rational: the rounded quotient of its
    numerator by its denominator. *)
Definition f32_cast (q : Q) : float32 :=
  match Qnum q with
  | Z0 => S754_zero false
  | Zpos n => f32_div (S754_finite false n 0) (S754_finite false (Qden q) 0)
  | Zneg n => f32_div (S754_finite true n 0) (S754_finite false (Qden q) 0)
  end.

(** [numpy.min] of two floats: nan if either is. *)
Definition f32_min (x y : float32) : float32 :=
  match SFcompare x y with
  | Some Gt => y
  | Some _ => x
  | None => S754_nan
  end.

Definition binary32 : Dtype float32 :=
  mkDtype f32_cast f32_add f32_sub f32_mul f32_div SFopp SFltb f32_min.

(** The value of a finite float; an infinity or nan has none. *)
Definition f32_value (x : float32) : option Q :=
  match x with
  | S754_zero _ => Some 0%Q
  | S754_finite s m e =>
    Some (Qred ((if s then - inject_Z (Zpos m) else inject_Z (Zpos m)) * Qpower 2 e))
  | S754_infinity _ => None
  | S754_nan => None
  end.

(** A sum in the arithmetic of [dt], accumulated in index order. *)
Section Sums.

Variables (F : Type) (dt : Dtype F).

Fixpoint sum_upto_in (n : nat) (f : nat -> F) : F :=
  match n with
  | O => dt_cast dt 0
  | S k => dt_add dt (sum_upto_in k f) (f k)
  end.

End Sums.

(** A float that is either an exact rational or not finite (nan, inf or
    -inf).  Subtraction and multiplication keep a value that is not finite
    not finite. *)
Inductive Float : Type :=
| Fin (q : Q)
| NonFinite.

Definition fsub (x y : Float) : Float :=
  match x, y with
  | Fin a, Fin b => Fin (a - b)
  | _, _ => NonFinite
  end.

Definition fmul (x y : Float) : Float :=
  match x, y with
  | Fin a, Fin b => Fin (a * b)
  | _, _ => NonFinite
  end.

Definition fadd (x y : Float) : Float :=
  match x, y with
  | Fin a, Fin b => Fin (a + b)
  | _, _ => NonFinite
  end.

(** Equality of floats as numbers: a value that is not finite is equal to
    nothing. *)
Definition float_eq (x y : Float) : Prop :=
  match x, y with
  | Fin a, Fin b => (a == b)%Q
  | _, _ => False
  end.

(** ** Tensors *)

Module Torch.

(** A tensor is its sizes and its entries by index; [F] is the type of an
    entry.  [Tensor2], [Tensor3] and [Tensor4] are the tensors of exact
    rationals. *)
Record Tensor2_of (F : Type) : Type :=
  mkT2 { rows : nat; cols : nat; at2 : nat -> nat -> F }.

Record Tensor3_of (F : Type) : Type :=
  mkT3 { n3_0 : nat; n3_1 : nat; n3_2 : nat; at3 : nat -> nat -> nat -> F }.

Record Tensor4_of (F : Type) : Type :=
  mkT4 { n4_0 : nat; n4_1 : nat; n4_2 : nat; n4_3 : nat;
         at4 : nat -> nat -> nat -> nat -> F }.

Notation Tensor2 := (Tensor2_of Q).
Notation Tensor3 := (Tensor3_of Q).
Notation Tensor4 := (Tensor4_of Q).

Record BoolTensor2 : Type :=
  mkB2 { brows : nat; bcols : nat; bat2 : nat -> nat -> bool }.

Record BoolTensor3 : Type :=
  mkB3 { b3_0 : nat; b3_1 : nat; b3_2 : nat; bat3 : nat -> nat -> nat -> bool }.

Definition shape2 {F : Type} (A : Tensor2_of F) : nat * nat := (rows A, cols A).

(** Broadcasting: a dimension of size 1 is stretched, its only index is 0. *)
Definition bdim (a b : nat) : nat := if a =? 1 then b else a.
Definition bidx (n i : nat) : nat := if n =? 1 then 0 else i.

Definition map2_2 {F : Type} (op : F -> F -> F) (A B : Tensor2_of F) : Tensor2_of F :=
  mkT2 (bdim (rows A) (rows B)) (bdim (cols A) (cols B))
       (fun i j => op (at2 A (bidx (rows A) i) (bidx (cols A) j))
                      (at2 B (bidx (rows B) i) (bidx (cols B) j))).

Definition map2_3 {F : Type} (op : F -> F -> F) (A B : Tensor3_of F) : Tensor3_of F :=
  mkT3 (bdim (n3_0 A) (n3_0 B)) (bdim (n3_1 A) (n3_1 B)) (bdim (n3_2 A) (n3_2 B))
       (fun i j k =>
          op (at3 A (bidx (n3_0 A) i) (bidx (n3_1 A) j) (bidx (n3_2 A) k))
             (at3 B (bidx (n3_0 B) i) (bidx (n3_1 B) j) (bidx (n3_2 B) k))).

Definition map2_4 {F : Type} (op : F -> F -> F) (A B : Tensor4_of F) : Tensor4_of F :=
  mkT4 (bdim (n4_0 A) (n4_0 B)) (bdim (n4_1 A) (n4_1 B))
       (bdim (n4_2 A) (n4_2 B)) (bdim (n4_3 A) (n4_3 B))
       (fun i j k l =>
          op (at4 A (bidx (n4_0 A) i) (bidx (n4_1 A) j) (bidx (n4_2 A) k) (bidx (n4_3 A) l))
             (at4 B (bidx (n4_0 B) i) (bidx (n4_1 B) j) (bidx (n4_2 B) k) (bidx (n4_3 B) l))).

Definition add2 : Tensor2 -> Tensor2 -> Tensor2 := map2_2 Qplus.
Definition sub2 : Tensor2 -> Tensor2 -> Tensor2 := map2_2 Qminus.
Definition mul2 : Tensor2 -> Tensor2 -> Tensor2 := map2_2 Qmult.
Definition mul3 : Tensor3 -> Tensor3 -> Tensor3 := map2_3 Qmult.
Definition div3 : Tensor3 -> Tensor3 -> Tensor3 := map2_3 Qdiv.
Definition add4 : Tensor4 -> Tensor4 -> Tensor4 := map2_4 Qplus.
Definition div4 : Tensor4 -> Tensor4 -> Tensor4 := map2_4 Qdiv.

(** Arithmetic with a Python scalar. *)
Definition div2_scalar (A : Tensor2) (q : Q) : Tensor2 :=
  mkT2 (rows A) (cols A) (fun i j => (at2 A i j / q)%Q).

Definition scalar_mul2 (q : Q) (A : Tensor2) : Tensor2 :=
  mkT2 (rows A) (cols A) (fun i j => (q * at2 A i j)%Q).

(** [torch.zeros], [torch.ones], [torch.eye]. *)
Definition zeros2 (r c : nat) : Tensor2 := mkT2 r c (fun _ _ => 0%Q).
Definition ones2 (r c : nat) : Tensor2 := mkT2 r c (fun _ _ => 1%Q).
Definition zeros3 (a b c : nat) : Tensor3 := mkT3 a b c (fun _ _ _ => 0%Q).
Definition eye (r c : nat) : Tensor2 :=
  mkT2 r c (fun i j => if i =? j then 1%Q else 0%Q).

(** [A.t()] and [A.triu()] of a matrix. *)
Definition t {F : Type} (A : Tensor2_of F) : Tensor2_of F :=
  mkT2 (cols A) (rows A) (fun i j => at2 A j i).

Definition triu (A : Tensor2) : Tensor2 :=
  mkT2 (rows A) (cols A) (fun i j => if i <=? j then at2 A i j else 0%Q).

(** Row-major reading of a tensor, and the tensor of a given shape over a
    row-major sequence: [reshape] and [view] are the composition of the
    two. *)
Definition ravel2 {F : Type} (A : Tensor2_of F) (f : nat) : F :=
  at2 A (f / cols A) (f mod cols A).

Definition ravel3 {F : Type} (A : Tensor3_of F) (f : nat) : F :=
  at3 A (f / (n3_1 A * n3_2 A)) ((f / n3_2 A) mod n3_1 A) (f mod n3_2 A).

Definition ravel4 {F : Type} (A : Tensor4_of F) (f : nat) : F :=
  at4 A (f / (n4_1 A * n4_2 A * n4_3 A)) ((f / (n4_2 A * n4_3 A)) mod n4_1 A)
        ((f / n4_3 A) mod n4_2 A) (f mod n4_3 A).

Definition view2 {F : Type} (g : nat -> F) (r c : nat) : Tensor2_of F :=
  mkT2 r c (fun i j => g (i * c + j)).

Definition view4 {F : Type} (g : nat -> F) (a b c d : nat) : Tensor4_of F :=
  mkT4 a b c d (fun i j k l => g (((i * b + j) * c + k) * d + l)).

(** [A.permute(p0, p1, p2, p3)]: dimension [k] of the result is dimension
    [pk] of [A]. *)
Definition pick (p : nat) (x0 x1 x2 x3 : nat) : nat :=
  match p with
  | 0 => x0
  | 1 => x1
  | 2 => x2
  | _ => x3
  end.

Definition unpick (p0 p1 p2 p3 m : nat) (i0 i1 i2 i3 : nat) : nat :=
  if p0 =? m then i0 else if p1 =? m then i1 else if p2 =? m then i2 else i3.

Definition permute4 {F : Type} (A : Tensor4_of F) (p0 p1 p2 p3 : nat) : Tensor4_of F :=
  let n := pick in
  mkT4 (n p0 (n4_0 A) (n4_1 A) (n4_2 A) (n4_3 A))
       (n p1 (n4_0 A) (n4_1 A) (n4_2 A) (n4_3 A))
       (n p2 (n4_0 A) (n4_1 A) (n4_2 A) (n4_3 A))
       (n p3 (n4_0 A) (n4_1 A) (n4_2 A) (n4_3 A))
       (fun i0 i1 i2 i3 =>
          at4 A (unpick p0 p1 p2 p3 0 i0 i1 i2 i3) (unpick p0 p1 p2 p3 1 i0 i1 i2 i3)
                (unpick p0 p1 p2 p3 2 i0 i1 i2 i3) (unpick p0 p1 p2 p3 3 i0 i1 i2 i3)).

(** [A.transpose(2, 3)] of a 4-d tensor. *)
Definition transpose4_23 {F : Type} (A : Tensor4_of F) : Tensor4_of F :=
  permute4 A 0 1 3 2.

(** [torch.cat([A, B], 1)] of matrices and [torch.cat([A, B], 2)] of 3-d
    tensors. *)
Definition cat2_dim1 {F : Type} (A B : Tensor2_of F) : Tensor2_of F :=
  mkT2 (rows A) (cols A + cols B)
       (fun i j => if j <? cols A then at2 A i j else at2 B i (j - cols A)).

Definition cat3_dim2 {F : Type} (A B : Tensor3_of F) : Tensor3_of F :=
  mkT3 (n3_0 A) (n3_1 A) (n3_2 A + n3_2 B)
       (fun i j k => if k <? n3_2 A then at3 A i j k else at3 B i j (k - n3_2 A)).

(** [A.repeat(r, c)] tiles a matrix. *)
Definition repeat2 {F : Type} (A : Tensor2_of F) (r c : nat) : Tensor2_of F :=
  mkT2 (rows A * r) (cols A * c) (fun i j => at2 A (i mod rows A) (j mod cols A)).

(** [A.unfold(1, size, step)]: windows of [size] consecutive columns, one
    every [step] columns, laid out along a new last dimension. *)
Definition unfold2_dim1 {F : Type} (A : Tensor2_of F) (size step : nat) : Tensor3_of F :=
  mkT3 (rows A) ((cols A - size) / step + 1) size
       (fun i m n => at2 A i (m * step + n)).

Definition bunfold2_dim1 (A : BoolTensor2) (size step : nat) : BoolTensor3 :=
  mkB3 (brows A) ((bcols A - size) / step + 1) size
       (fun i m n => bat2 A i (m * step + n)).

(** Slices [A[:, :, :-1]] and [A[:, :c]], [A[:r, :c]]. *)
Definition drop_last3 {F : Type} (A : Tensor3_of F) : Tensor3_of F :=
  mkT3 (n3_0 A) (n3_1 A) (n3_2 A - 1) (at3 A).

Definition slice2 {F : Type} (A : Tensor2_of F) (r c : nat) : Tensor2_of F :=
  mkT2 (Nat.min r (rows A)) (Nat.min c (cols A)) (at2 A).

Definition slice2_cols {F : Type} (A : Tensor2_of F) (c : nat) : Tensor2_of F :=
  mkT2 (rows A) (Nat.min c (cols A)) (at2 A).

(** The slice [A[r:, c:]]. *)
Definition slice2_from {F : Type} (A : Tensor2_of F) (r c : nat) : Tensor2_of F :=
  mkT2 (rows A - r) (cols A - c) (fun i j => at2 A (r + i) (c + j)).

(** Reductions. *)
Definition sum3_dim1_keepdim (A : Tensor3) : Tensor3 :=
  mkT3 (n3_0 A) 1 (n3_2 A)
       (fun i _ k => sum_upto (n3_1 A) (fun m => at3 A i m k)).

Definition sum2_dim0_keepdim (A : Tensor2) : Tensor2 :=
  mkT2 1 (cols A) (fun _ j => sum_upto (rows A) (fun i => at2 A i j)).

Definition sum2 (A : Tensor2) : Q :=
  sum_upto (rows A) (fun i => sum_upto (cols A) (fun j => at2 A i j)).

Definition trace (A : Tensor2) : Q :=
  sum_upto (Nat.min (rows A) (cols A)) (fun i => at2 A i i).

Definition matmul (A B : Tensor2) : Tensor2 :=
  mkT2 (rows A) (cols B)
       (fun i j => sum_upto (cols A) (fun k => (at2 A i k * at2 B k j)%Q)).

(** Boolean tensors: [A.all(dim=2)], [A.sum(1)], and
    [A.float().flatten().unsqueeze(1)]. *)
Definition all_dim2 (A : BoolTensor3) : BoolTensor2 :=
  mkB2 (b3_0 A) (b3_1 A)
       (fun i m => forallb (fun n => bat3 A i m n) (seq 0 (b3_2 A))).

Definition row_count (A : BoolTensor2) (i : nat) : nat :=
  List.length (filter (fun j => bat2 A i j) (seq 0 (bcols A))).

Definition bsum_dim1 (A : BoolTensor2) : list nat :=
  map (row_count A) (seq 0 (brows A)).

Definition numel3 {F : Type} (A : Tensor3_of F) : nat := n3_0 A * n3_1 A * n3_2 A.

Definition float_flatten_unsqueeze1 (A : BoolTensor2) : Tensor2 :=
  mkT2 (brows A * bcols A) 1
       (fun n _ => if bat2 A (n / bcols A) (n mod bcols A) then 1%Q else 0%Q).

(** [torch.min] of a 1-d integer tensor; it is undefined on an empty one. *)
Definition min_list (l : list nat) : option nat :=
  match l with
  | [] => None
  | x :: xs => Some (fold_left Nat.min xs x)
  end.

(** Pointwise equality of matrices of the same shape. *)
Definition mat_eq (A B : Tensor2) : Prop :=
  shape2 A = shape2 B /\
  forall i j, i < rows A -> j < cols A -> (at2 A i j == at2 B i j)%Q.

(** A float matrix: its entries are all rationals, or all nan. *)
Inductive FloatTensor2 : Type :=
| FiniteT (A : Tensor2)
| NaNs (r c : nat).

(** Conversions from and to lists of rows, for concrete matrices. *)
Definition of_rows (l : list (list Q)) : Tensor2 :=
  mkT2 (length l) (length (hd [] l)) (fun i j => nth j (nth i l []) 0%Q).

Definition to_rows (A : Tensor2) : list (list Q) :=
  map (fun i => map (fun j => Qred (at2 A i j)) (seq 0 (cols A))) (seq 0 (rows A)).

(** *** The same operations in the arithmetic of an element type *)

Section Dtyped.

Variables (F : Type) (dt : Dtype F).

Definition add2_in : Tensor2_of F -> Tensor2_of F -> Tensor2_of F := map2_2 (dt_add dt).
Definition sub2_in : Tensor2_of F -> Tensor2_of F -> Tensor2_of F := map2_2 (dt_sub dt).
Definition mul2_in : Tensor2_of F -> Tensor2_of F -> Tensor2_of F := map2_2 (dt_mul dt).
Definition mul3_in : Tensor3_of F -> Tensor3_of F -> Tensor3_of F := map2_3 (dt_mul dt).
Definition div3_in : Tensor3_of F -> Tensor3_of F -> Tensor3_of F := map2_3 (dt_div dt).
Definition add4_in : Tensor4_of F -> Tensor4_of F -> Tensor4_of F := map2_4 (dt_add dt).
Definition div4_in : Tensor4_of F -> Tensor4_of F -> Tensor4_of F := map2_4 (dt_div dt).

Definition div2_scalar_in (A : Tensor2_of F) (x : F) : Tensor2_of F :=
  mkT2 (rows A) (cols A) (fun i j => dt_div dt (at2 A i j) x).

Definition scalar_mul2_in (x : F) (A : Tensor2_of F) : Tensor2_of F :=
  mkT2 (rows A) (cols A) (fun i j => dt_mul dt x (at2 A i j)).

Definition zeros2_in (r c : nat) : Tensor2_of F := mkT2 r c (fun _ _ => dt_cast dt 0).
Definition ones2_in (r c : nat) : Tensor2_of F := mkT2 r c (fun _ _ => dt_cast dt 1).
Definition zeros3_in (a b c : nat) : Tensor3_of F :=
  mkT3 a b c (fun _ _ _ => dt_cast dt 0).
Definition eye_in (r c : nat) : Tensor2_of F :=
  mkT2 r c (fun i j => if i =? j then dt_cast dt 1 else dt_cast dt 0).

Definition triu_in (A : Tensor2_of F) : Tensor2_of F :=
  mkT2 (rows A) (cols A) (fun i j => if i <=? j then at2 A i j else dt_cast dt 0).

Definition sum3_dim1_keepdim_in (A : Tensor3_of F) : Tensor3_of F :=
  mkT3 (n3_0 A) 1 (n3_2 A)
       (fun i _ k => sum_upto_in dt (n3_1 A) (fun m => at3 A i m k)).

Definition sum2_dim0_keepdim_in (A : Tensor2_of F) : Tensor2_of F :=
  mkT2 1 (cols A) (fun _ j => sum_upto_in dt (rows A) (fun i => at2 A i j)).

Definition sum2_in (A : Tensor2_of F) : F :=
  sum_upto_in dt (rows A) (fun i => sum_upto_in dt (cols A) (fun j => at2 A i j)).

Definition trace_in (A : Tensor2_of F) : F :=
  sum_upto_in dt (Nat.min (rows A) (cols A)) (fun i => at2 A i i).

Definition matmul_in (A B : Tensor2_of F) : Tensor2_of F :=
  mkT2 (rows A) (cols B)
       (fun i j => sum_upto_in dt (cols A) (fun k => dt_mul dt (at2 A i k) (at2 B k j))).

Definition float_flatten_unsqueeze1_in (A : BoolTensor2) : Tensor2_of F :=
  mkT2 (brows A * bcols A) 1
       (fun n _ => if bat2 A (n / bcols A) (n mod bcols A)
                   then dt_cast dt 1 else dt_cast dt 0).

(** [torch.tensor(A, dtype=...)] of a matrix or a batch of rationals. *)
Definition cast2 (A : Tensor2) : Tensor2_of F :=
  mkT2 (rows A) (cols A) (fun i j => dt_cast dt (at2 A i j)).

Definition cast3 (A : Tensor3) : Tensor3_of F :=
  mkT3 (n3_0 A) (n3_1 A) (n3_2 A) (fun i j k => dt_cast dt (at3 A i j k)).

End Dtyped.

(** The entries of a float matrix, row by row, and its diagonal. *)
Definition f32_rows (A : Tensor2_of float32) : list (list float32) :=
  map (fun i => map (fun j => at2 A i j) (seq 0 (cols A))) (seq 0 (rows A)).

Definition f32_value_rows (A : Tensor2_of float32) : list (list (option Q)) :=
  map (map f32_value) (f32_rows A).

Definition f32_diagonal (A : Tensor2_of float32) : list (option Q) :=
  map (fun i => f32_value (at2 A i i)) (seq 0 (Nat.min (rows A) (cols A))).

(** [torch.diag] of a list: the diagonal matrix of its entries. *)
Definition diag (l : list Q) : Tensor2 :=
  mkT2 (List.length l) (List.length l) (fun i j => if i =? j then nth i l 0%Q else 0%Q).

End Torch.

Import Torch.

(** ** [matrix_toeplitzify]

    The model is that of a call on a [cov] of shape [(T*d, T*d)] with [T]
    and [d] positive, the case the function is documented for; on other
    shapes torch's [reshape] or [unfold] raises. *)

Definition matrix_toeplitzify (cov : Tensor2) (T d : nat) : Tensor2 :=
  (* First make sure it is symmetric. *)
  let cov := div2_scalar (add2 cov (t cov)) 2 in
  let cov := view2 (ravel4 (permute4 (view4 (ravel2 cov) T d T d) 1 3 0 2))
                   (d * d) (T * T) in
  let cov := cat2_dim1 cov (zeros2 (d * d) T) in
  let indicator :=
    repeat2 (view2 (ravel2 (triu (ones2 (T + 1) T))) 1 ((T + 1) * T)) (d * d) 1 in
  let cov_unfold := unfold2_dim1 cov (T + 1) (T + 1) in
  let ind_unfold := unfold2_dim1 indicator (T + 1) (T + 1) in
  let avg :=
    div3 (sum3_dim1_keepdim (mul3 (drop_last3 cov_unfold) (drop_last3 ind_unfold)))
         (sum3_dim1_keepdim (drop_last3 ind_unfold)) in
  let avg := mul3 (cat3_dim2 avg (zeros3 (d * d) 1 1)) ind_unfold in
  let avg :=
    view4 (ravel2 (slice2_cols (view2 (ravel3 avg) (d * d) ((T + 1) * T)) (T * T)))
          d d T T in
  let indicator := view4 (ravel2 (triu (ones2 T T))) 1 1 T T in
  (* Full transpose in original space. *)
  let result :=
    div4 (add4 avg (permute4 avg 1 0 3 2))
         (add4 indicator (transpose4_23 indicator)) in
  view2 (ravel4 (permute4 result 2 0 3 1)) (T * d) (T * d).

(** The values bound by the successive assignments of [matrix_toeplitzify],
    named after the source's variables. *)
Definition tz_sym (cov : Tensor2) : Tensor2 :=
  div2_scalar (add2 cov (t cov)) 2.

Definition tz_cov (cov : Tensor2) (T d : nat) : Tensor2 :=
  cat2_dim1
    (view2 (ravel4 (permute4 (view4 (ravel2 (tz_sym cov)) T d T d) 1 3 0 2))
           (d * d) (T * T))
    (zeros2 (d * d) T).

Definition tz_indicator (T d : nat) : Tensor2 :=
  repeat2 (view2 (ravel2 (triu (ones2 (T + 1) T))) 1 ((T + 1) * T)) (d * d) 1.

Definition tz_cov_unfold (cov : Tensor2) (T d : nat) : Tensor3 :=
  unfold2_dim1 (tz_cov cov T d) (T + 1) (T + 1).

Definition tz_ind_unfold (T d : nat) : Tensor3 :=
  unfold2_dim1 (tz_indicator T d) (T + 1) (T + 1).

Definition tz_avg0 (cov : Tensor2) (T d : nat) : Tensor3 :=
  div3 (sum3_dim1_keepdim
          (mul3 (drop_last3 (tz_cov_unfold cov T d)) (drop_last3 (tz_ind_unfold T d))))
       (sum3_dim1_keepdim (drop_last3 (tz_ind_unfold T d))).

Definition tz_avg1 (cov : Tensor2) (T d : nat) : Tensor3 :=
  mul3 (cat3_dim2 (tz_avg0 cov T d) (zeros3 (d * d) 1 1)) (tz_ind_unfold T d).

Definition tz_avg (cov : Tensor2) (T d : nat) : Tensor4 :=
  view4 (ravel2 (slice2_cols (view2 (ravel3 (tz_avg1 cov T d)) (d * d) ((T + 1) * T))
                             (T * T)))
        d d T T.

Definition tz_indicator2 (T : nat) : Tensor4 :=
  view4 (ravel2 (triu (ones2 T T))) 1 1 T T.

Definition tz_result (cov : Tensor2) (T d : nat) : Tensor4 :=
  div4 (add4 (tz_avg cov T d) (permute4 (tz_avg cov T d) 1 0 3 2))
       (add4 (tz_indicator2 T) (transpose4_23 (tz_indicator2 T))).

(** ** [rectify_spectrum]

    [eigvalsh] stands for [scipy.linalg.eigvalsh], [np_min] for [numpy.min],
    which raises on an empty array.  The function updates [cov] in place
    and may print: it is given as the new value of [cov] together with
    the lines printed. *)

Definition np_min (l : list Q) : result Q :=
  match l with
  | [] => Raise (ValueError
                   "zero-size array to reduction operation minimum which has no identity")
  | x :: xs => Return (fold_left Qmin xs x)
  end.

Definition rectify_spectrum (eigvalsh : Tensor2 -> list Q)
    (cov : Tensor2) (epsilon : Q) (verbose : bool) : result (Tensor2 * list string) :=
  min_eig <- np_min (eigvalsh cov) ;;
  if Qltb min_eig 0 then
    let cov := add2 cov (scalar_mul2 (- min_eig + epsilon) (eye (rows cov) (rows cov))) in
    Return (cov,
            if verbose
            then ["Warning: non-PSD matrix (had to increase eigenvalues)"%string]
            else [])
  else Return (cov, []).

(** ** [calc_pi_from_cov]

    [logdet] stands for the value of [torch.logdet] on a square matrix;
    [torch.logdet] raises on a matrix that is not square. *)

Definition torch_logdet (logdet : Tensor2 -> Float) (A : Tensor2) : result Float :=
  if rows A =? cols A then Return (logdet A) else Raise RuntimeError.

Definition calc_pi_from_cov (logdet : Tensor2 -> Float) (cov_2_T_pi : Tensor2)
  : result Float :=
  let T_pi := rows cov_2_T_pi / 2 in
  let cov_T_pi := slice2 cov_2_T_pi T_pi T_pi in
  logdet_T_pi <- torch_logdet logdet cov_T_pi ;;
  logdet_2T_pi <- torch_logdet logdet cov_2_T_pi ;;
  let PI := fsub logdet_T_pi (fmul (Fin (1 # 2)) logdet_2T_pi) in
  Return PI.

(** ** [calc_cov_from_data]

    [torch.min] raises on an empty batch.  After the length check, the
    torch calls raise a RuntimeError unless [d] is positive ([unfold] needs
    a positive step), [T] is positive ([reshape] to [[-1, 0]] is
    ambiguous), the window fits the padded length ([unfold] needs
    [T * d <= maxlen * d]), and the mask has as many windows as the batch
    ([torch.mul] and [matmul] need one entry of [mask_float] for each
    lagged vector).

    Both divisions are by [torch.sum(mask_float)], the number of valid
    windows.  When no window is valid that number is 0, the mean is 0/0 in
    every entry, and nan goes through the subtraction, the product, the
    Toeplitz averaging and the regularization: the result is then the
    all-nan matrix of the same shape. *)

Definition windows_agree (F : Type) (xs_pad : Tensor3_of F) (src_mask : BoolTensor2)
    (T : nat) : bool :=
  (0 <? n3_2 xs_pad) && (0 <? T) && (T <=? n3_1 xs_pad)
  && (n3_0 xs_pad * (n3_1 xs_pad - T + 1) =? brows src_mask * (bcols src_mask - T + 1)).

Definition T_too_long : string :=
  "T must be shorter than the length of the shortest " ++
  "time series. If you are using the DCA model, 2 * DCA.T must be " ++
  "shorter than the shortest time series.".

Definition calc_cov_from_data (xs_pad : Tensor3) (src_mask : BoolTensor2) (T : nat)
    (toeplitzify : bool) (reg : Q) : result FloatTensor2 :=
  let B := n3_0 xs_pad in
  let maxlen := n3_1 xs_pad in
  let d := n3_2 xs_pad in
  match min_list (bsum_dim1 src_mask) with
  | None => Raise RuntimeError
  | Some shortest =>
    if shortest <=? T then Raise (ValueError T_too_long) else
    if negb (windows_agree xs_pad src_mask T) then Raise RuntimeError else
    (* Extracts sliding local blocks. *)
    let xs_with_lags := unfold2_dim1 (view2 (ravel3 xs_pad) B (maxlen * d)) (T * d) d in
    (* Find the valid concat frames. *)
    let mask_with_lags := all_dim2 (bunfold2_dim1 src_mask T 1) in
    let mask_float := float_flatten_unsqueeze1 mask_with_lags in
    let xs_with_lags :=
      view2 (ravel3 xs_with_lags) (numel3 xs_with_lags / (T * d)) (T * d) in
    let n_valid := sum2 mask_float in
    if Qeq_bool n_valid 0 then Return (NaNs (T * d) (T * d)) else
    let xs_with_lags_mean :=
      div2_scalar (sum2_dim0_keepdim (mul2 xs_with_lags mask_float)) n_valid in
    (* Remove mean for concat frames. *)
    let xs_with_lags := sub2 xs_with_lags xs_with_lags_mean in
    let cov_est :=
      div2_scalar (matmul (t (mul2 xs_with_lags mask_float)) xs_with_lags) n_valid in
    let cov_est := if toeplitzify then matrix_toeplitzify cov_est T d else cov_est in
    let cov_est :=
      if Qltb 0 reg then add2 cov_est (scalar_mul2 reg (eye (T * d) (T * d)))
      else cov_est in
    Return (FiniteT cov_est)
  end.

(** The values bound by the assignments of [calc_cov_from_data]. *)
Definition cv_lags (F : Type) (xs_pad : Tensor3_of F) (T : nat) : Tensor2_of F :=
  let B := n3_0 xs_pad in
  let maxlen := n3_1 xs_pad in
  let d := n3_2 xs_pad in
  let xs_with_lags := unfold2_dim1 (view2 (ravel3 xs_pad) B (maxlen * d)) (T * d) d in
  view2 (ravel3 xs_with_lags) (numel3 xs_with_lags / (T * d)) (T * d).

Definition cv_mask_float (src_mask : BoolTensor2) (T : nat) : Tensor2 :=
  float_flatten_unsqueeze1 (all_dim2 (bunfold2_dim1 src_mask T 1)).

Definition cv_cov_est (xs_with_lags mask_float : Tensor2) : Tensor2 :=
  let n_valid := sum2 mask_float in
  let xs_with_lags_mean :=
    div2_scalar (sum2_dim0_keepdim (mul2 xs_with_lags mask_float)) n_valid in
  let xs_with_lags := sub2 xs_with_lags xs_with_lags_mean in
  div2_scalar (matmul (t (mul2 xs_with_lags mask_float)) xs_with_lags) n_valid.

Definition cv_regularized (cov_est : Tensor2) (n : nat) (reg : Q) : Tensor2 :=
  if Qltb 0 reg then add2 cov_est (scalar_mul2 reg (eye n n)) else cov_est.

(** ** The functions in the arithmetic of an element type

    The same three functions with every operation on entries taken in the
    arithmetic [dt] of the tensors' element type; at [exact] they are the
    functions above, at [binary32] they round as torch does on [float32]
    tensors.  A Python float ([2.0], [epsilon], [reg]) is given by its
    value and is converted to the element type where it meets a tensor.
    A division by zero is left to [dt_div]. *)

Section Dtyped.

Variables (F : Type) (dt : Dtype F).

Definition matrix_toeplitzify_in (cov : Tensor2_of F) (T d : nat) : Tensor2_of F :=
  (* First make sure it is symmetric. *)
  let cov := div2_scalar_in dt (add2_in dt cov (t cov)) (dt_cast dt 2) in
  let cov := view2 (ravel4 (permute4 (view4 (ravel2 cov) T d T d) 1 3 0 2))
                   (d * d) (T * T) in
  let cov := cat2_dim1 cov (zeros2_in dt (d * d) T) in
  let indicator :=
    repeat2 (view2 (ravel2 (triu_in dt (ones2_in dt (T + 1) T))) 1 ((T + 1) * T))
            (d * d) 1 in
  let cov_unfold := unfold2_dim1 cov (T + 1) (T + 1) in
  let ind_unfold := unfold2_dim1 indicator (T + 1) (T + 1) in
  let avg :=
    div3_in dt
      (sum3_dim1_keepdim_in dt
         (mul3_in dt (drop_last3 cov_unfold) (drop_last3 ind_unfold)))
      (sum3_dim1_keepdim_in dt (drop_last3 ind_unfold)) in
  let avg := mul3_in dt (cat3_dim2 avg (zeros3_in dt (d * d) 1 1)) ind_unfold in
  let avg :=
    view4 (ravel2 (slice2_cols (view2 (ravel3 avg) (d * d) ((T + 1) * T)) (T * T)))
          d d T T in
  let indicator := view4 (ravel2 (triu_in dt (ones2_in dt T T))) 1 1 T T in
  (* Full transpose in original space. *)
  let result :=
    div4_in dt (add4_in dt avg (permute4 avg 1 0 3 2))
            (add4_in dt indicator (transpose4_23 indicator)) in
  view2 (ravel4 (permute4 result 2 0 3 1)) (T * d) (T * d).

Definition np_min_in (l : list F) : result F :=
  match l with
  | [] => Raise (ValueError
                   "zero-size array to reduction operation minimum which has no identity")
  | x :: xs => Return (fold_left (dt_min dt) xs x)
  end.

Definition rectify_spectrum_in (eigvalsh : Tensor2_of F -> list F)
    (cov : Tensor2_of F) (epsilon : Q) (verbose : bool)
  : result (Tensor2_of F * list string) :=
  min_eig <- np_min_in (eigvalsh cov) ;;
  if dt_ltb dt min_eig (dt_cast dt 0) then
    let cov :=
      add2_in dt cov
        (scalar_mul2_in dt (dt_add dt (dt_neg dt min_eig) (dt_cast dt epsilon))
                        (eye_in dt (rows cov) (rows cov))) in
    Return (cov,
            if verbose
            then ["Warning: non-PSD matrix (had to increase eigenvalues)"%string]
            else [])
  else Return (cov, []).

Definition calc_cov_from_data_in (xs_pad : Tensor3_of F) (src_mask : BoolTensor2)
    (T : nat) (toeplitzify : bool) (reg : Q) : result (Tensor2_of F) :=
  let B := n3_0 xs_pad in
  let maxlen := n3_1 xs_pad in
  let d := n3_2 xs_pad in
  match min_list (bsum_dim1 src_mask) with
  | None => Raise RuntimeError
  | Some shortest =>
    if shortest <=? T then Raise (ValueError T_too_long) else
    if negb (windows_agree xs_pad src_mask T) then Raise RuntimeError else
    (* Extracts sliding local blocks. *)
    let xs_with_lags := unfold2_dim1 (view2 (ravel3 xs_pad) B (maxlen * d)) (T * d) d in
    (* Find the valid concat frames. *)
    let mask_with_lags := all_dim2 (bunfold2_dim1 src_mask T 1) in
    let mask_float := float_flatten_unsqueeze1_in dt mask_with_lags in
    let xs_with_lags :=
      view2 (ravel3 xs_with_lags) (numel3 xs_with_lags / (T * d)) (T * d) in
    let n_valid := sum2_in dt mask_float in
    let xs_with_lags_mean :=
      div2_scalar_in dt (sum2_dim0_keepdim_in dt (mul2_in dt xs_with_lags mask_float))
                     n_valid in
    (* Remove mean for concat frames. *)
    let xs_with_lags := sub2_in dt xs_with_lags xs_with_lags_mean in
    let cov_est :=
      div2_scalar_in dt
        (matmul_in dt (t (mul2_in dt xs_with_lags mask_float)) xs_with_lags) n_valid in
    let cov_est := if toeplitzify then matrix_toeplitzify_in cov_est T d else cov_est in
    let cov_est :=
      if Qltb 0 reg
      then add2_in dt cov_est (scalar_mul2_in dt (dt_cast dt reg) (eye_in dt (T * d) (T * d)))
      else cov_est in
    Return cov_est
  end.

End Dtyped.

(** The values bound by the assignments of [calc_cov_from_data_in]. *)
Definition cv_mask_float_in (F : Type) (dt : Dtype F) (src_mask : BoolTensor2) (T : nat)
  : Tensor2_of F :=
  float_flatten_unsqueeze1_in dt (all_dim2 (bunfold2_dim1 src_mask T 1)).

Definition cv_cov_est_in (F : Type) (dt : Dtype F) (xs_with_lags mask_float : Tensor2_of F)
  : Tensor2_of F :=
  let n_valid := sum2_in dt mask_float in
  let xs_with_lags_mean :=
    div2_scalar_in dt (sum2_dim0_keepdim_in dt (mul2_in dt xs_with_lags mask_float))
                   n_valid in
  let xs_with_lags := sub2_in dt xs_with_lags xs_with_lags_mean in
  div2_scalar_in dt (matmul_in dt (t (mul2_in dt xs_with_lags mask_float)) xs_with_lags)
                 n_valid.

(** Reading a result as rows, for concrete runs. *)
Definition finite_rows (r : result FloatTensor2) : option (list (list Q)) :=
  match r with
  | Return (FiniteT A) => Some (to_rows A)
  | _ => None
  end.

Definition f32_result_rows (r : result (Tensor2_of float32))
  : option (list (list (option Q))) :=
  match r with
  | Return A => Some (f32_value_rows A)
  | Raise _ => None
  end.

Definition f32_result_matrix (r : result (Tensor2_of float32 * list string))
  : option (list (list (option Q))) :=
  match r with
  | Return (A, _) => Some (f32_value_rows A)
  | Raise _ => None
  end.

Definition float_value (r : result Float) : option Q :=
  match r with
  | Return (Fin q) => Some (Qred q)
  | _ => None
  end.

(** Tensors and masks from nested lists. *)
Definition of_batch (l : list (list (list Q))) : Tensor3 :=
  mkT3 (List.length l) (List.length (hd [] l)) (List.length (hd [] (hd [] l)))
       (fun b i c => nth c (nth i (nth b l []) []) 0%Q).

Definition of_mask (l : list (list bool)) : BoolTensor2 :=
  mkB2 (List.length l) (List.length (hd [] l)) (fun b i => nth i (nth b l []) false).

(** The mask of a batch padded to [maxlen] whose sequences have the given
    lengths. *)
Definition length_mask (lens : list nat) (maxlen : nat) : BoolTensor2 :=
  mkB2 (List.length lens) maxlen (fun b i => i <? nth b lens 0).

(** ** What the spec says of [matrix_toeplitzify] *)

(** Entry of the symmetrized input [(M + M^t) / 2]. *)
Definition symmetrized (M : Tensor2) (a b : nat) : Q :=
  ((at2 M a b + at2 M b a) / 2)%Q.

(** Entry [(i, j)] of the mean of the [T - k] blocks [(m, m + k)] of the
    symmetrized input. *)
Definition lag_mean (M : Tensor2) (T d k i j : nat) : Q :=
  (sum_upto (T - k) (fun m => symmetrized M (m * d + i) ((m + k) * d + j))
   / Qnat (T - k))%Q.

(** The block [(t1, t2)] of the output, entry [(i, j)]. *)
Definition toeplitz_entry (M : Tensor2) (T d t1 t2 i j : nat) : Q :=
  if t1 <? t2 then lag_mean M T d (t2 - t1) i j
  else if t2 <? t1 then lag_mean M T d (t1 - t2) j i
  else ((lag_mean M T d 0 i j + lag_mean M T d 0 j i) / 2)%Q.

(** Blocks [(t1, t2)] and [(t1', t2')] with [t1 - t2 = t1' - t2'] are
    equal. *)
Definition block_toeplitz (A : Tensor2) (T d : nat) : Prop :=
  forall t1 t2 t1' t2' i j,
    t1 < T -> t2 < T -> t1' < T -> t2' < T -> i < d -> j < d ->
    t1 + t2' = t1' + t2 ->
    (at2 A (t1 * d + i) (t2 * d + j) == at2 A (t1' * d + i) (t2' * d + j))%Q.

(** A matrix equal to its transpose. *)
Definition symmetric (A : Tensor2) : Prop :=
  forall a b, a < rows A -> b < cols A -> (at2 A a b == at2 A b a)%Q.

(** ** What the spec says of [rectify_spectrum] *)

Definition matvec (n : nat) (A : Tensor2) (v : nat -> Q) (i : nat) : Q :=
  sum_upto n (fun j => at2 A i j * v j)%Q.

Definition dot (n : nat) (u v : nat -> Q) : Q :=
  sum_upto n (fun i => u i * v i)%Q.

(** [lam] is an eigenvalue of [A]: [A v = lam v] for a vector [v] that is
    not zero. *)
Definition is_eigenvalue (A : Tensor2) (lam : Q) : Prop :=
  exists v, (exists i, i < rows A /\ ~ (v i == 0)%Q)
            /\ forall i, i < rows A -> (matvec (rows A) A v i == lam * v i)%Q.

(** Every eigenvalue of the symmetric matrix [A] is at least [lam]: the
    quadratic form of [A] is bounded below by [lam] times the squared
    norm. *)
Definition spectrum_bounded_below (A : Tensor2) (lam : Q) : Prop :=
  forall v, (lam * dot (rows A) v v <= dot (rows A) v (matvec (rows A) A v))%Q.

(** [lam] is the least eigenvalue of the symmetric matrix [A]. *)
Definition is_min_eigenvalue (A : Tensor2) (lam : Q) : Prop :=
  is_eigenvalue A lam /\ spectrum_bounded_below A lam.

(** The matrix [A + c * I]. *)
Definition shifted (A : Tensor2) (c : Q) (B : Tensor2) : Prop :=
  shape2 B = shape2 A /\
  forall i j, i < rows A -> j < cols A ->
    (at2 B i j == at2 A i j + (if i =? j then c else 0))%Q.

(** ** What the spec says of [calc_pi_from_cov] *)

(** The mutual information, in nats, of the first [k] and the remaining
    coordinates of a Gaussian vector of covariance [cov]:
    [(logdet cov[:k, :k] + logdet cov[k:, k:] - logdet cov) / 2]. *)
Definition gaussian_mutual_information (logdet : Tensor2 -> Float) (cov : Tensor2)
    (k : nat) : Float :=
  fmul (Fin (1 # 2))
       (fsub (fadd (logdet (slice2 cov k k)) (logdet (slice2_from cov k k)))
             (logdet cov)).

(** ** What the spec says of [calc_cov_from_data] *)

(** The window of [T] timesteps of sequence [b] that starts at [w] is
    valid when the mask holds on all of it. *)
Definition window_valid (mask : BoolTensor2) (T b w : nat) : bool :=
  forallb (fun n => bat2 mask b (w + n)) (seq 0 T).

(** The length precondition: every sequence has more than [T] valid
    timesteps. *)
Definition length_precondition (mask : BoolTensor2) (T : nat) : Prop :=
  0 < brows mask /\ forall b, b < brows mask -> T < row_count mask b.

(** The output with [reg = r] minus the output with [reg = 0] is [r] on the
    diagonal and 0 off it. *)
Definition reg_difference_is_ridge (xs_pad : Tensor3) (src_mask : BoolTensor2)
    (T : nat) (toeplitzify : bool) (r : Q) : Prop :=
  exists C0 Cr,
    calc_cov_from_data xs_pad src_mask T toeplitzify 0 = Return (FiniteT C0)
    /\ calc_cov_from_data xs_pad src_mask T toeplitzify r = Return (FiniteT Cr)
    /\ shape2 C0 = (T * n3_2 xs_pad, T * n3_2 xs_pad)
    /\ shape2 Cr = (T * n3_2 xs_pad, T * n3_2 xs_pad)
    /\ forall i j, i < T * n3_2 xs_pad -> j < T * n3_2 xs_pad ->
         (at2 Cr i j - at2 C0 i j == if i =? j then r else 0)%Q.

(** The estimator the code computes: mean and covariance of the rows of
    [lags] weighted by the 0/1 column [mask_float]. *)
Definition masked_mean (lags mask_float : Tensor2) (k : nat) : Q :=
  (sum_upto (rows lags) (fun i => at2 lags i k * at2 mask_float i 0)
   / sum2 mask_float)%Q.

Definition masked_cov (lags mask_float : Tensor2) (k1 k2 : nat) : Q :=
  (sum_upto (rows lags)
     (fun i => (at2 lags i k1 - masked_mean lags mask_float k1) * at2 mask_float i 0
               * (at2 lags i k2 - masked_mean lags mask_float k2))
   / sum2 mask_float)%Q.

(** ** Concrete inputs *)

Definition example_cov4 : Tensor2 :=
  of_rows [[1; 2; 3; 4]; [5; 6; 7; 8]; [9; 10; 11; 12]; [13; 14; 15; 17]]%Q.

(** A symmetric matrix with eigenvalues -1 and 3, and a solver that
    returns them. *)
Definition example_indefinite : Tensor2 := of_rows [[1; 2]; [2; 1]]%Q.
Definition example_eigvalsh (_ : Tensor2) : list Q := [-1; 3]%Q.

Definition example_cov3 : Tensor2 := of_rows [[2; 1; 0]; [1; 2; 1]; [0; 1; 2]]%Q.
Definition example_logdet (A : Tensor2) : Float := Fin (trace A).

(** One sequence 1, 2, ..., 6 of one feature, all of it valid. *)
Definition ramp_batch : Tensor3 := of_batch [[[1]; [2]; [3]; [4]; [5]; [6]]]%Q.
Definition ramp_mask : BoolTensor2 := length_mask [6] 6.

(** The float32 solver on that matrix, and the matrix [rectify_spectrum]
    leaves in float32: its diagonal is [2 + 2^-20]. *)
Definition example_eigvalsh_f32 (_ : Tensor2_of float32) : list float32 :=
  [f32_cast (-1); f32_cast 3].

Definition rectified_f32 : Tensor2 :=
  of_rows [[2097153 # 1048576; 2]; [2; 2097153 # 1048576]]%Q.

(** Diagonal matrices for [T = 3], [d = 2] and for [T = 7], [d = 1]. *)
Definition example_diag_1_13 : Tensor2 := diag [1; 13; 0; 0; 0; 0]%Q.
Definition example_diag_5 : Tensor2 := diag [5; 0; 0; 0; 0; 0; 0]%Q.

(** The float32 nearest to 0.1. *)
Definition example_reg : Q := 13421773 # 134217728.

(** The covariance of [(X, Y)] with [var X = 1], [var Y = 2] and
    [cov (X, Y) = 1], and [torch.logdet] on the matrices of size 1 and 2 of
    determinant 1 or 2: [ln 1 = 0], and [ln 2] is 0.693147182464599609375
    in float32. *)
Definition example_cov_pi : Tensor2 := of_rows [[1; 1]; [1; 2]]%Q.

Definition det_small (A : Tensor2) : Q :=
  if rows A =? 1 then at2 A 0 0
  else (at2 A 0 0 * at2 A 1 1 - at2 A 0 1 * at2 A 1 0)%Q.

Definition ln2_f32 : Q := 11629080 # 16777216.

Definition example_logdet_f32 (A : Tensor2) : Float :=
  if Qeq_bool (det_small A) 1 then Fin 0
  else if Qeq_bool (det_small A) 2 then Fin ln2_f32
  else NonFinite.

(** One sequence whose valid timesteps alternate with invalid ones. *)
Definition holes_mask : BoolTensor2 := of_mask [[true; false; true; false; true]].
Definition holes_batch : Tensor3 := of_batch [[[1]; [2]; [3]; [4]; [5]]]%Q.

(** The lagged vector of the window of sequence [b] that starts at [w]:
    the [T] feature vectors of the window, one after the other. *)
Definition lagged_vector (X : Tensor3) (T b w : nat) : list Q :=
  flat_map (fun t => map (fun c => at3 X b (w + t) c) (seq 0 (n3_2 X))) (seq 0 T).

(** All length-[T] sliding windows of all sequences of the batch. *)
Definition lagged_vectors (X : Tensor3) (T : nat) : list (list Q) :=
  flat_map (fun b => map (lagged_vector X T b) (seq 0 (n3_1 X - T + 1)))
           (seq 0 (n3_0 X)).

Fixpoint sum_list (l : list Q) : Q :=
  match l with
  | [] => 0%Q
  | x :: l => (x + sum_list l)%Q
  end.

Definition mean_of (vs : list (list Q)) (k : nat) : Q :=
  (sum_list (map (fun v => nth k v 0) vs) / Qnat (List.length vs))%Q.

(** The average of the outer products of the mean-subtracted vectors. *)
Definition empirical_cov (vs : list (list Q)) (k1 k2 : nat) : Q :=
  (sum_list (map (fun v => (nth k1 v 0 - mean_of vs k1) * (nth k2 v 0 - mean_of vs k2)) vs)
   / Qnat (List.length vs))%Q.

(** ** Proofs *)

Example toeplitzify_2x2 :
  to_rows (matrix_toeplitzify (of_rows [[1; 2]; [3; 4]]%Q) 2 1)
  = [[5 # 2; 5 # 2]; [5 # 2; 5 # 2]]%Q.
Proof. vm_compute. reflexivity. Qed.

Example toeplitzify_4x4_blocks :
  to_rows (matrix_toeplitzify
             (of_rows [[1; 2; 3; 4]; [5; 6; 7; 8]; [9; 10; 11; 12]; [13; 14; 15; 17]]%Q)
             2 2)
  = [[6; 17 # 2; 6; 17 # 2]; [17 # 2; 23 # 2; 17 # 2; 11];
     [6; 17 # 2; 6; 17 # 2]; [17 # 2; 11; 17 # 2; 23 # 2]]%Q.
Proof. vm_compute. reflexivity. Qed.

Lemma matrix_toeplitzify_rows (cov : Tensor2) (T d : nat) :
  rows (matrix_toeplitzify cov T d) = T * d.
Proof. reflexivity. Qed.

Lemma matrix_toeplitzify_cols (cov : Tensor2) (T d : nat) :
  cols (matrix_toeplitzify cov T d) = T * d.
Proof. reflexivity. Qed.

Lemma matrix_toeplitzify_unfold (cov : Tensor2) (T d : nat) :
  matrix_toeplitzify cov T d
  = view2 (ravel4 (permute4 (tz_result cov T d) 2 0 3 1)) (T * d) (T * d).
Proof. reflexivity. Qed.

(** *** The exact element type

    At [exact] the functions over an element type are the functions over
    the rationals. *)

Lemma matrix_toeplitzify_exact (cov : Tensor2) (T d : nat) :
  matrix_toeplitzify_in exact cov T d = matrix_toeplitzify cov T d.
Proof.
  unfold matrix_toeplitzify_in, matrix_toeplitzify.
  unfold add2_in, mul3_in, div3_in, add4_in, div4_in, div2_scalar_in,
    zeros2_in, ones2_in, zeros3_in, triu_in, sum3_dim1_keepdim_in,
    add2, mul3, div3, add4, div4, div2_scalar, zeros2, ones2, zeros3, triu,
    sum3_dim1_keepdim.
  cbn [exact dt_cast dt_add dt_mul dt_div].
  reflexivity.
Qed.

Lemma rectify_spectrum_exact (eigvalsh : Tensor2 -> list Q) (cov : Tensor2)
    (epsilon : Q) (verbose : bool) :
  rectify_spectrum_in exact eigvalsh cov epsilon verbose
  = rectify_spectrum eigvalsh cov epsilon verbose.
Proof.
  unfold rectify_spectrum_in, rectify_spectrum, np_min_in, np_min,
    add2_in, scalar_mul2_in, eye_in, add2, scalar_mul2, eye.
  cbn [exact dt_cast dt_add dt_mul dt_neg dt_ltb dt_min].
  reflexivity.
Qed.

(** *** Sums *)

Lemma sum_upto_ext (n : nat) (f g : nat -> Q) :
  (forall i, i < n -> (f i == g i)%Q) -> (sum_upto n f == sum_upto n g)%Q.
Proof.
  induction n as [|n IH]; intros H; simpl.
  - reflexivity.
  - rewrite IH by (intros; apply H; lia). rewrite (H n) by lia. reflexivity.
Qed.

Lemma sum_upto_zero (n : nat) (f : nat -> Q) :
  (forall i, i < n -> (f i == 0)%Q) -> (sum_upto n f == 0)%Q.
Proof.
  induction n as [|n IH]; intros H; simpl.
  - reflexivity.
  - rewrite IH by (intros; apply H; lia). rewrite (H n) by lia. ring.
Qed.

Lemma sum_upto_plus (n : nat) (f g : nat -> Q) :
  (sum_upto n (fun i => f i + g i) == sum_upto n f + sum_upto n g)%Q.
Proof. induction n as [|n IH]; simpl; [|rewrite IH]; ring. Qed.

Lemma sum_upto_scal (n : nat) (c : Q) (f : nat -> Q) :
  (sum_upto n (fun i => c * f i) == c * sum_upto n f)%Q.
Proof. induction n as [|n IH]; simpl; [|rewrite IH]; ring. Qed.

Lemma Qnat_S (n : nat) : (Qnat (S n) == Qnat n + 1)%Q.
Proof.
  unfold Qnat. rewrite Nat2Z.inj_succ, <- Z.add_1_r, inject_Z_plus. reflexivity.
Qed.

Lemma Qnat_pos (n : nat) : 0 < n -> (0 < Qnat n)%Q.
Proof.
  intros H. unfold Qnat. change 0%Q with (inject_Z 0).
  rewrite <- Zlt_Qlt. lia.
Qed.

Lemma Qnat_nonzero (n : nat) : 0 < n -> ~ (Qnat n == 0)%Q.
Proof. intros H E. pose proof (Qnat_pos H) as P. rewrite E in P. lra. Qed.

Lemma sum_upto_const (n : nat) (c : Q) :
  (sum_upto n (fun _ => c) == Qnat n * c)%Q.
Proof.
  induction n as [|n IH].
  - simpl. unfold Qnat. simpl. ring.
  - cbn [sum_upto]. rewrite IH, Qnat_S. ring.
Qed.

(** A sum whose terms vanish from [k] on stops at [k]. *)
Lemma sum_upto_cut (n k : nat) (f : nat -> Q) :
  k <= n -> (forall i, k <= i < n -> (f i == 0)%Q) ->
  (sum_upto n f == sum_upto k f)%Q.
Proof.
  intros Hk. induction n as [|n IH]; intros H.
  - replace k with 0 by lia. reflexivity.
  - destruct (Nat.eq_dec k (S n)) as [->|Hne]; [reflexivity|].
    simpl. rewrite IH by (try lia; intros; apply H; lia).
    rewrite (H n) by lia. ring.
Qed.

Lemma sum_upto_swap (n m : nat) (f : nat -> nat -> Q) :
  (sum_upto n (fun i => sum_upto m (fun j => f i j))
   == sum_upto m (fun j => sum_upto n (fun i => f i j)))%Q.
Proof.
  induction n as [|n IH]; simpl.
  - symmetry. apply sum_upto_zero. reflexivity.
  - rewrite IH, <- sum_upto_plus. reflexivity.
Qed.

(** A sum over [a * b] flat indices, read block by block. *)
Lemma sum_upto_blocks (a b : nat) (f : nat -> Q) :
  (sum_upto (a * b) f
   == sum_upto a (fun t => sum_upto b (fun i => f (t * b + i)%nat)))%Q.
Proof.
  induction a as [|a IH].
  - reflexivity.
  - cbn [sum_upto]. rewrite <- IH. clear IH.
    replace (S a * b) with (a * b + b) by lia.
    generalize (a * b) as base. intros base.
    induction b as [|b IHb].
    + rewrite Nat.add_0_r. simpl. ring.
    + rewrite Nat.add_succ_r. cbn [sum_upto]. rewrite IHb. ring.
Qed.

Lemma sum_upto_delta (n i : nat) (f : nat -> Q) :
  i < n ->
  (sum_upto n (fun j => (if (i =? j)%nat then 1 else 0) * f j) == f i)%Q.
Proof.
  induction n as [|n IH]; intros H; [lia|].
  cbn [sum_upto]. destruct (Nat.eq_dec i n) as [->|Hne].
  - rewrite Nat.eqb_refl.
    rewrite sum_upto_zero.
    + ring.
    + intros j Hj. destruct (Nat.eqb_spec n j); [lia|ring].
  - rewrite IH by lia. destruct (Nat.eqb_spec i n); [lia|ring].
Qed.

(** *** Row-major indices *)

Lemma sum_upto_nonneg (n : nat) (f : nat -> Q) :
  (forall i, i < n -> (0 <= f i)%Q) -> (0 <= sum_upto n f)%Q.
Proof.
  induction n as [|n IH]; intros H; cbn [sum_upto].
  - lra.
  - assert (0 <= sum_upto n f)%Q by (apply IH; intros; apply H; lia).
    assert (0 <= f n)%Q by (apply H; lia). lra.
Qed.

Lemma sum_upto_pos (n k : nat) (f : nat -> Q) :
  (forall i, i < n -> (0 <= f i)%Q) -> k < n -> (0 < f k)%Q ->
  (0 < sum_upto n f)%Q.
Proof.
  induction n as [|n IH]; intros H Hk Hpos; [lia|]. cbn [sum_upto].
  assert (0 <= sum_upto n f)%Q by (apply sum_upto_nonneg; intros; apply H; lia).
  destruct (Nat.eq_dec k n) as [->|Hne].
  - lra.
  - assert (0 < sum_upto n f)%Q.
    { apply IH; [intros; apply H; lia | lia | exact Hpos]. }
    assert (0 <= f n)%Q by (apply H; lia). lra.
Qed.

Lemma flat_lt (a b i j : nat) : i < a -> j < b -> i * b + j < a * b.
Proof. intros. nia. Qed.

Lemma flat_div (b q r : nat) : r < b -> (q * b + r) / b = q.
Proof.
  intros H. symmetry. apply Nat.div_unique with (r := r); [exact H | lia].
Qed.

Lemma flat_mod (b q r : nat) : r < b -> (q * b + r) mod b = r.
Proof.
  intros H. symmetry. apply Nat.mod_unique with (q := q); [exact H | lia].
Qed.

Lemma ravel2_flat (A : Tensor2) (i j : nat) :
  j < cols A -> ravel2 A (i * cols A + j) = at2 A i j.
Proof.
  intros H. unfold ravel2. rewrite flat_div, flat_mod by assumption. reflexivity.
Qed.

Lemma ravel3_flat (A : Tensor3) (i j k : nat) :
  j < n3_1 A -> k < n3_2 A ->
  ravel3 A ((i * n3_1 A + j) * n3_2 A + k) = at3 A i j k.
Proof.
  intros Hj Hk. unfold ravel3.
  rewrite flat_mod, flat_div, flat_mod by assumption.
  replace ((i * n3_1 A + j) * n3_2 A + k)
    with (i * (n3_1 A * n3_2 A) + (j * n3_2 A + k)) by lia.
  rewrite flat_div by (apply flat_lt; assumption). reflexivity.
Qed.

Lemma ravel4_flat (A : Tensor4) (i j k l : nat) :
  j < n4_1 A -> k < n4_2 A -> l < n4_3 A ->
  ravel4 A (((i * n4_1 A + j) * n4_2 A + k) * n4_3 A + l) = at4 A i j k l.
Proof.
  intros Hj Hk Hl. unfold ravel4.
  rewrite flat_mod, flat_div, flat_mod by assumption.
  replace (((i * n4_1 A + j) * n4_2 A + k) * n4_3 A + l)
    with ((i * n4_1 A + j) * (n4_2 A * n4_3 A) + (k * n4_3 A + l)) at 2 by lia.
  rewrite flat_div by (apply flat_lt; assumption).
  rewrite flat_mod by assumption.
  replace (((i * n4_1 A + j) * n4_2 A + k) * n4_3 A + l)
    with (i * (n4_1 A * n4_2 A * n4_3 A) + ((j * n4_2 A + k) * n4_3 A + l)) by lia.
  rewrite flat_div; [reflexivity|].
  apply flat_lt; [apply flat_lt|]; assumption.
Qed.

(** *** Broadcasting *)

Lemma bidx_lt (n i : nat) : i < n -> bidx n i = i.
Proof. unfold bidx. destruct (Nat.eqb_spec n 1); lia. Qed.

Lemma bdim_same (n : nat) : bdim n n = n.
Proof. unfold bdim. destruct (Nat.eqb_spec n 1); lia. Qed.

Lemma bdim_one_r (n : nat) : bdim n 1 = n.
Proof. unfold bdim. destruct (Nat.eqb_spec n 1); lia. Qed.


Lemma unfold_count (T : nat) : 0 < T -> (T * T + T - (T + 1)) / (T + 1) + 1 = T.
Proof.
  intros H. replace (T * T + T - (T + 1)) with ((T - 1) * (T + 1)) by nia.
  rewrite Nat.div_mul by lia. lia.
Qed.

(** Where a window of [T + 1] consecutive flat indices of a [T x T] block
    falls: column [n] of row [m] is the block entry [(m, m + n)] above the
    diagonal, and an entry of a later row below it. *)
Lemma window_upper (T m n : nat) :
  m + n < T -> (m * (T + 1) + n) / T = m /\ (m * (T + 1) + n) mod T = m + n.
Proof.
  intros H. replace (m * (T + 1) + n) with (m * T + (m + n)) by lia.
  split; [apply flat_div | apply flat_mod]; lia.
Qed.

Lemma window_lower (T m n : nat) :
  m < T -> n <= T -> T <= m + n ->
  (m * (T + 1) + n) / T = m + 1 /\ (m * (T + 1) + n) mod T = m + n - T.
Proof.
  intros Hm Hn H. replace (m * (T + 1) + n) with ((m + 1) * T + (m + n - T)) by lia.
  split; [apply flat_div | apply flat_mod]; lia.
Qed.

Lemma lag_mean_zero_sym (M : Tensor2) (T d i j : nat) :
  (lag_mean M T d 0 i j == lag_mean M T d 0 j i)%Q.
Proof.
  unfold lag_mean. apply Qmult_comp; [|reflexivity].
  apply sum_upto_ext. intros m _. unfold symmetrized.
  rewrite Nat.add_0_r. field.
Qed.

Lemma toeplitz_entry_sym (M : Tensor2) (T d t1 t2 i j : nat) :
  (toeplitz_entry M T d t1 t2 i j == toeplitz_entry M T d t2 t1 j i)%Q.
Proof.
  unfold toeplitz_entry.
  destruct (Nat.ltb_spec t1 t2), (Nat.ltb_spec t2 t1); try lia; try reflexivity.
  field.
Qed.

Lemma toeplitz_entry_lag (M : Tensor2) (T d t k i j : nat) :
  (toeplitz_entry M T d t (t + k) i j == lag_mean M T d k i j)%Q.
Proof.
  unfold toeplitz_entry.
  destruct (Nat.ltb_spec t (t + k)), (Nat.ltb_spec (t + k) t); try lia.
  - replace (t + k - t) with k by lia. reflexivity.
  - replace k with 0 by lia. rewrite (lag_mean_zero_sym M T d j i). field.
Qed.


(** The sizes of [tz_avg] and [tz_indicator2] are those given to [view4]. *)
Ltac tz_dims cov T d :=
  change (n4_0 (tz_avg cov T d)) with d; change (n4_1 (tz_avg cov T d)) with d;
  change (n4_2 (tz_avg cov T d)) with T; change (n4_3 (tz_avg cov T d)) with T;
  change (n4_0 (tz_indicator2 T)) with 1; change (n4_1 (tz_indicator2 T)) with 1;
  change (n4_2 (tz_indicator2 T)) with T; change (n4_3 (tz_indicator2 T)) with T.

(** *** The stages of [matrix_toeplitzify]

    Each lemma gives the entries or the sizes of one of the values the
    function binds, for an input of shape [(T*d, T*d)] with [T > 0]. *)

Section Toeplitzify.

Variables (cov : Tensor2) (T d : nat).
Hypothesis HT : 0 < T.
Hypothesis Hrows : rows cov = T * d.
Hypothesis Hcols : cols cov = T * d.

Lemma tz_sym_at (a b : nat) :
  a < T * d -> b < T * d -> at2 (tz_sym cov) a b = symmetrized cov a b.
Proof.
  intros Ha Hb. unfold tz_sym, div2_scalar, add2, map2_2, t, symmetrized.
  cbn [at2 rows cols]. rewrite Hrows, Hcols, !bidx_lt by assumption. reflexivity.
Qed.

Lemma tz_sym_cols : cols (tz_sym cov) = T * d.
Proof.
  unfold tz_sym, div2_scalar, add2, map2_2, t. cbn [rows cols].
  rewrite Hrows, Hcols. apply bdim_same.
Qed.

Lemma tz_cov_rows : rows (tz_cov cov T d) = d * d.
Proof. reflexivity. Qed.

Lemma tz_cov_cols : cols (tz_cov cov T d) = T * T + T.
Proof. reflexivity. Qed.

Lemma tz_cov_block (i j t1 t2 : nat) :
  i < d -> j < d -> t1 < T -> t2 < T ->
  at2 (tz_cov cov T d) (i * d + j) (t1 * T + t2)
  = symmetrized cov (t1 * d + i) (t2 * d + j).
Proof.
  intros Hi Hj H1 H2. unfold tz_cov, cat2_dim1, view2, zeros2.
  cbn [at2 rows cols].
  destruct (Nat.ltb_spec (t1 * T + t2) (T * T)) as [_|Hge]; [|nia].
  set (P := permute4 _ 1 3 0 2).
  replace ((i * d + j) * (T * T) + (t1 * T + t2))
    with (((i * n4_1 P + j) * n4_2 P + t1) * n4_3 P + t2) by (subst P; cbn; lia).
  rewrite ravel4_flat by (subst P; cbn; assumption).
  subst P. unfold permute4, view4, unpick. cbn [at4 Nat.eqb].
  replace (((t1 * d + i) * T + t2) * d + j)
    with ((t1 * d + i) * cols (tz_sym cov) + (t2 * d + j))
    by (rewrite tz_sym_cols; lia).
  rewrite ravel2_flat by (rewrite tz_sym_cols; apply flat_lt; assumption).
  apply tz_sym_at; apply flat_lt; assumption.
Qed.


Lemma tz_indicator_at (r f : nat) :
  f < (T + 1) * T ->
  at2 (tz_indicator T d) r f = if f / T <=? f mod T then 1%Q else 0%Q.
Proof.
  intros H. unfold tz_indicator, repeat2, view2, ravel2, triu, ones2.
  cbn [at2 rows cols]. rewrite Nat.mod_1_r, Nat.mod_small by exact H.
  reflexivity.
Qed.

Lemma tz_ind_unfold_at (r m n : nat) :
  m < T -> n <= T ->
  at3 (tz_ind_unfold T d) r m n = if m + n <? T then 1%Q else 0%Q.
Proof.
  intros Hm Hn. unfold tz_ind_unfold, unfold2_dim1. cbn [at3].
  rewrite tz_indicator_at by nia.
  destruct (Nat.ltb_spec (m + n) T) as [Hlt|Hge].
  - destruct (@window_upper T m n Hlt) as [-> ->].
    destruct (Nat.leb_spec m (m + n)); [reflexivity | lia].
  - destruct (@window_lower T m n Hm Hn Hge) as [-> ->].
    destruct (Nat.leb_spec (m + 1) (m + n - T)); [lia | reflexivity].
Qed.

Lemma tz_cov_unfold_at (i j m n : nat) :
  i < d -> j < d -> m + n < T ->
  at3 (tz_cov_unfold cov T d) (i * d + j) m n
  = symmetrized cov (m * d + i) ((m + n) * d + j).
Proof.
  intros Hi Hj H. unfold tz_cov_unfold, unfold2_dim1. cbn [at3].
  replace (m * (T + 1) + n) with (m * T + (m + n)) by lia.
  apply tz_cov_block; lia.
Qed.

Lemma tz_ind_unfold_shape :
  n3_0 (tz_ind_unfold T d) = d * d /\ n3_1 (tz_ind_unfold T d) = T
  /\ n3_2 (tz_ind_unfold T d) = T + 1.
Proof.
  unfold tz_ind_unfold, unfold2_dim1, tz_indicator, repeat2, view2.
  cbn [n3_0 n3_1 n3_2 rows cols].
  repeat split; try lia.
  rewrite Nat.mul_1_r. replace ((T + 1) * T - (T + 1)) with ((T - 1) * (T + 1)) by nia.
  rewrite Nat.div_mul by lia. lia.
Qed.

Lemma tz_cov_unfold_shape :
  n3_0 (tz_cov_unfold cov T d) = d * d /\ n3_1 (tz_cov_unfold cov T d) = T
  /\ n3_2 (tz_cov_unfold cov T d) = T + 1.
Proof.
  unfold tz_cov_unfold, unfold2_dim1. cbn [n3_0 n3_1 n3_2].
  rewrite tz_cov_rows, tz_cov_cols, unfold_count by exact HT. auto.
Qed.

Lemma tz_ind_count (r n : nat) :
  n < T ->
  (sum_upto T (fun m => at3 (tz_ind_unfold T d) r m n) == Qnat (T - n))%Q.
Proof.
  intros Hn.
  rewrite (@sum_upto_cut T (T - n)); try lia.
  - rewrite (@sum_upto_ext (T - n) _ (fun _ => 1%Q)).
    + rewrite sum_upto_const. ring.
    + intros m Hm. rewrite tz_ind_unfold_at by lia.
      destruct (Nat.ltb_spec (m + n) T); [reflexivity | lia].
  - intros m Hm. rewrite tz_ind_unfold_at by lia.
    destruct (Nat.ltb_spec (m + n) T); [lia | reflexivity].
Qed.

Lemma tz_masked_sum (i j n : nat) :
  i < d -> j < d -> n < T ->
  (sum_upto T (fun m => at3 (tz_cov_unfold cov T d) (i * d + j) (bidx T m) n
                        * at3 (tz_ind_unfold T d) (i * d + j) (bidx T m) n)
   == sum_upto (T - n) (fun m => symmetrized cov (m * d + i) ((m + n) * d + j)))%Q.
Proof.
  intros Hi Hj Hn.
  rewrite (@sum_upto_cut T (T - n)); try lia.
  - apply sum_upto_ext. intros m Hm.
    rewrite bidx_lt, tz_ind_unfold_at, tz_cov_unfold_at by lia.
    destruct (Nat.ltb_spec (m + n) T); [ring | lia].
  - intros m Hm. rewrite bidx_lt, tz_ind_unfold_at by lia.
    destruct (Nat.ltb_spec (m + n) T); [lia | ring].
Qed.

Lemma tz_avg0_at (i j n : nat) :
  i < d -> j < d -> n < T ->
  (at3 (tz_avg0 cov T d) (i * d + j) 0 n == lag_mean cov T d n i j)%Q.
Proof.
  intros Hi Hj Hn.
  destruct tz_ind_unfold_shape as (I0 & I1 & I2).
  destruct tz_cov_unfold_shape as (C0 & C1 & C2).
  unfold tz_avg0, div3, mul3, map2_3, sum3_dim1_keepdim, drop_last3.
  cbn [at3 n3_0 n3_1 n3_2]. rewrite I0, I1, I2, C0, C1, C2.
  rewrite Nat.add_sub, !bdim_same.
  rewrite !(@bidx_lt (d * d) (i * d + j)) by (apply flat_lt; assumption).
  rewrite !(@bidx_lt T n) by assumption.
  rewrite tz_masked_sum, tz_ind_count by assumption.
  reflexivity.
Qed.

Lemma tz_avg0_shape :
  n3_0 (tz_avg0 cov T d) = d * d /\ n3_1 (tz_avg0 cov T d) = 1
  /\ n3_2 (tz_avg0 cov T d) = T.
Proof.
  destruct tz_ind_unfold_shape as (I0 & I1 & I2).
  destruct tz_cov_unfold_shape as (C0 & C1 & C2).
  unfold tz_avg0, div3, mul3, map2_3, sum3_dim1_keepdim, drop_last3.
  cbn [at3 n3_0 n3_1 n3_2]. rewrite I0, I2, C0, C2.
  rewrite Nat.add_sub, !bdim_same. auto.
Qed.

Lemma tz_avg1_shape :
  n3_0 (tz_avg1 cov T d) = d * d /\ n3_1 (tz_avg1 cov T d) = T
  /\ n3_2 (tz_avg1 cov T d) = T + 1.
Proof.
  destruct tz_ind_unfold_shape as (I0 & I1 & I2).
  destruct tz_avg0_shape as (A0 & A1 & A2).
  unfold tz_avg1, mul3, map2_3, cat3_dim2, zeros3.
  cbn [at3 n3_0 n3_1 n3_2]. rewrite I0, I1, I2, A0, A1, A2.
  rewrite !bdim_same. auto.
Qed.

Lemma tz_avg1_at (i j m n : nat) :
  i < d -> j < d -> m < T -> n <= T ->
  (at3 (tz_avg1 cov T d) (i * d + j) m n
   == if m + n <? T then lag_mean cov T d n i j else 0)%Q.
Proof.
  intros Hi Hj Hm Hn.
  destruct tz_ind_unfold_shape as (I0 & I1 & I2).
  destruct tz_avg0_shape as (A0 & A1 & A2).
  unfold tz_avg1, mul3, map2_3, cat3_dim2, zeros3.
  cbn [at3 n3_0 n3_1 n3_2]. rewrite I0, I1, I2, A0, A1, A2.
  rewrite !(@bidx_lt (d * d) (i * d + j)) by (apply flat_lt; assumption).
  change (bidx 1 m) with 0.
  rewrite !(@bidx_lt (T + 1) n), !(@bidx_lt T m) by lia.
  rewrite tz_ind_unfold_at by lia.
  destruct (Nat.ltb_spec (m + n) T) as [Hlt|Hge].
  - destruct (Nat.ltb_spec n T); [|lia].
    rewrite tz_avg0_at by assumption. ring.
  - ring.
Qed.

Lemma tz_avg_at (i j t1 t2 : nat) :
  i < d -> j < d -> t1 < T -> t2 < T ->
  (at4 (tz_avg cov T d) i j t1 t2
   == if t1 <=? t2 then lag_mean cov T d (t2 - t1) i j else 0)%Q.
Proof.
  intros Hi Hj H1 H2.
  destruct tz_avg1_shape as (A0 & A1 & A2).
  unfold tz_avg, view4. cbn [at4].
  set (SL := slice2_cols _ _).
  assert (HSL : cols SL = T * T).
  { subst SL. unfold slice2_cols, view2. cbn [cols]. nia. }
  replace (((i * d + j) * T + t1) * T + t2)
    with ((i * d + j) * cols SL + (t1 * T + t2)) by (rewrite HSL; lia).
  rewrite ravel2_flat by (rewrite HSL; apply flat_lt; assumption).
  subst SL. unfold slice2_cols, view2. cbn [at2].
  destruct (Nat.leb_spec t1 t2) as [Hle|Hgt].
  - replace ((i * d + j) * ((T + 1) * T) + (t1 * T + t2))
      with (((i * d + j) * n3_1 (tz_avg1 cov T d) + t1) * n3_2 (tz_avg1 cov T d)
            + (t2 - t1)) by (rewrite A1, A2; nia).
    rewrite ravel3_flat by lia.
    rewrite tz_avg1_at by lia.
    destruct (Nat.ltb_spec (t1 + (t2 - t1)) T); [reflexivity | lia].
  - replace ((i * d + j) * ((T + 1) * T) + (t1 * T + t2))
      with (((i * d + j) * n3_1 (tz_avg1 cov T d) + (t1 - 1)) * n3_2 (tz_avg1 cov T d)
            + (T + 1 + t2 - t1)) by (rewrite A1, A2; nia).
    rewrite ravel3_flat by lia.
    rewrite tz_avg1_at by lia.
    destruct (Nat.ltb_spec (t1 - 1 + (T + 1 + t2 - t1)) T); [lia | reflexivity].
Qed.

Lemma tz_indicator2_at (t1 t2 : nat) :
  t2 < T ->
  at4 (tz_indicator2 T) 0 0 t1 t2 = if t1 <=? t2 then 1%Q else 0%Q.
Proof.
  intros H2. unfold tz_indicator2, view4. cbn [at4 Nat.mul Nat.add].
  change (t1 * T + t2) with (t1 * cols (triu (ones2 T T)) + t2).
  rewrite ravel2_flat by exact H2. reflexivity.
Qed.

Lemma tz_result_at (i j t1 t2 : nat) :
  i < d -> j < d -> t1 < T -> t2 < T ->
  (at4 (tz_result cov T d) i j t1 t2
   == (at4 (tz_avg cov T d) i j t1 t2 + at4 (tz_avg cov T d) j i t2 t1)
      / (at4 (tz_indicator2 T) 0 0 t1 t2 + at4 (tz_indicator2 T) 0 0 t2 t1))%Q.
Proof.
  intros Hi Hj H1 H2.
  unfold tz_result, div4, add4, map2_4, transpose4_23, permute4, unpick.
  cbn [at4 n4_0 n4_1 n4_2 n4_3 pick Nat.eqb].
  tz_dims cov T d.
  rewrite !bdim_same. cbn [bdim bidx Nat.eqb].
  rewrite !(@bidx_lt d i), !(@bidx_lt d j), !(@bidx_lt T t1), !(@bidx_lt T t2)
    by assumption.
  reflexivity.
Qed.

Lemma matrix_toeplitzify_at (t1 t2 i j : nat) :
  t1 < T -> t2 < T -> i < d -> j < d ->
  (at2 (matrix_toeplitzify cov T d) (t1 * d + i) (t2 * d + j)
   == toeplitz_entry cov T d t1 t2 i j)%Q.
Proof.
  intros H1 H2 Hi Hj. rewrite matrix_toeplitzify_unfold.
  unfold view2. cbn [at2].
  set (P := permute4 _ 2 0 3 1).
  assert (HP : n4_0 P = T /\ n4_1 P = d /\ n4_2 P = T /\ n4_3 P = d).
  { subst P. unfold permute4, tz_result, div4, add4, map2_4, transpose4_23, permute4.
    cbn [n4_0 n4_1 n4_2 n4_3 pick].
    tz_dims cov T d.
    rewrite !bdim_same, !bdim_one_r. auto. }
  destruct HP as (P0 & P1 & P2 & P3).
  replace ((t1 * d + i) * (T * d) + (t2 * d + j))
    with (((t1 * n4_1 P + i) * n4_2 P + t2) * n4_3 P + j)
    by (rewrite P1, P2, P3; lia).
  rewrite ravel4_flat by lia.
  subst P. unfold permute4 at 1, unpick. cbn [at4 Nat.eqb].
  rewrite tz_result_at, !tz_avg_at, !tz_indicator2_at by assumption.
  unfold toeplitz_entry.
  destruct (Nat.leb_spec t1 t2), (Nat.leb_spec t2 t1),
    (Nat.ltb_spec t1 t2), (Nat.ltb_spec t2 t1); try lia.
  - replace t2 with t1 by lia. rewrite Nat.sub_diag. reflexivity.
  - field.
  - field.
Qed.


End Toeplitzify.

Lemma block_index (T d a : nat) :
  a < T * d -> a = (a / d) * d + a mod d /\ a / d < T /\ a mod d < d.
Proof.
  intros H. assert (Hd : d <> 0) by (intros ->; lia).
  pose proof (Nat.div_mod_eq a d). pose proof (Nat.mod_upper_bound a d Hd).
  repeat split; try lia.
  apply Nat.Div0.div_lt_upper_bound. lia.
Qed.

(** C1. For a [(T*d) x (T*d)] matrix with [T] and [d] positive, the output of
    [matrix_toeplitzify] has the shape of the input and is block-Toeplitz:
    two blocks with the same difference of block indices are equal; and
    the block at lag [k >= 0] is the mean over the [T - k] blocks at that
    lag of the symmetrized input [(M + M^t) / 2]. *)
Theorem toeplitzify_block_toeplitz (M : Tensor2) (T d : nat) :
  0 < T -> 0 < d -> shape2 M = (T * d, T * d) ->
  shape2 (matrix_toeplitzify M T d) = shape2 M
  /\ block_toeplitz (matrix_toeplitzify M T d) T d
  /\ forall t k i j, t + k < T -> i < d -> j < d ->
       (at2 (matrix_toeplitzify M T d) (t * d + i) ((t + k) * d + j)
        == lag_mean M T d k i j)%Q.
Proof.
  intros HT Hd Hs. injection Hs as Hr Hc.
  split; [|split].
  - unfold shape2. rewrite Hr, Hc. reflexivity.
  - intros t1 t2 t1' t2' i j H1 H2 H1' H2' Hi Hj E.
    rewrite !matrix_toeplitzify_at by assumption.
    unfold toeplitz_entry.
    destruct (Nat.ltb_spec t1 t2), (Nat.ltb_spec t2 t1),
      (Nat.ltb_spec t1' t2'), (Nat.ltb_spec t2' t1'); try lia.
    + replace (t2' - t1') with (t2 - t1) by lia. reflexivity.
    + replace (t1' - t2') with (t1 - t2) by lia. reflexivity.
    + reflexivity.
  - intros t k i j Hk Hi Hj.
    rewrite matrix_toeplitzify_at by (assumption || lia).
    apply toeplitz_entry_lag.
Qed.

Lemma toeplitzify_block_toeplitz_witness :
  shape2 (matrix_toeplitzify example_cov4 2 2) = shape2 example_cov4
  /\ block_toeplitz (matrix_toeplitzify example_cov4 2 2) 2 2
  /\ forall t k i j, t + k < 2 -> i < 2 -> j < 2 ->
       (at2 (matrix_toeplitzify example_cov4 2 2) (t * 2 + i) ((t + k) * 2 + j)
        == lag_mean example_cov4 2 2 k i j)%Q.
Proof.
  apply (@toeplitzify_block_toeplitz example_cov4 2 2); [lia | lia | reflexivity].
Defined.

(** C7. The output of [matrix_toeplitzify] equals its own transpose. *)
Theorem toeplitzify_symmetric (M : Tensor2) (T d : nat) :
  0 < T -> 0 < d -> shape2 M = (T * d, T * d) ->
  symmetric (matrix_toeplitzify M T d).
Proof.
  intros HT Hd Hs. injection Hs as Hr Hc.
  intros a b Ha Hb.
  rewrite matrix_toeplitzify_rows in Ha. rewrite matrix_toeplitzify_cols in Hb.
  destruct (block_index _ _ Ha) as (Ea & Ha1 & Ha2).
  destruct (block_index _ _ Hb) as (Eb & Hb1 & Hb2).
  rewrite Ea, Eb.
  rewrite !matrix_toeplitzify_at by assumption.
  apply toeplitz_entry_sym.
Qed.



Lemma toeplitzify_symmetric_witness :
  symmetric (matrix_toeplitzify example_cov4 2 2).
Proof.
  apply (@toeplitzify_symmetric example_cov4 2 2); [lia | lia | reflexivity].
Defined.

Lemma sum_upto_div (n : nat) (c : Q) (f : nat -> Q) :
  (sum_upto n (fun i => f i / c) == sum_upto n f / c)%Q.
Proof.
  unfold Qdiv. rewrite <- (Qmult_comm (/ c)), <- sum_upto_scal.
  apply sum_upto_ext. intros. ring.
Qed.

Lemma lag_mean_diag (M : Tensor2) (T d i : nat) :
  (lag_mean M T d 0 i i
   == sum_upto T (fun m => at2 M (m * d + i) (m * d + i)) / Qnat T)%Q.
Proof.
  unfold lag_mean. rewrite Nat.sub_0_r.
  apply Qmult_comp; [|reflexivity].
  apply sum_upto_ext. intros m _. unfold symmetrized.
  rewrite Nat.add_0_r. field.
Qed.

(** C10, amended.  In exact arithmetic [matrix_toeplitzify] preserves the
    trace: each diagonal block of the output is the mean of the [T]
    diagonal blocks of the symmetrized input, whose diagonal is that of the
    input. *)
Theorem toeplitzify_trace (M : Tensor2) (T d : nat) :
  0 < T -> 0 < d -> shape2 M = (T * d, T * d) ->
  (trace (matrix_toeplitzify_in exact M T d) == trace M)%Q.
Proof.
  intros HT Hd Hs. injection Hs as Hr Hc.
  rewrite (matrix_toeplitzify_exact M T d).
  unfold trace. rewrite Hr, Hc.
  rewrite matrix_toeplitzify_rows, matrix_toeplitzify_cols, Nat.min_id.
  set (g := fun i m => at2 M (m * d + i) (m * d + i)).
  transitivity (Qnat T * sum_upto d (fun i => sum_upto T (g i) / Qnat T))%Q.
  - rewrite (sum_upto_blocks T d).
    rewrite <- sum_upto_const. apply sum_upto_ext. intros t Ht.
    apply sum_upto_ext. intros i Hi.
    rewrite matrix_toeplitzify_at by assumption.
    pose proof (toeplitz_entry_lag M T d t 0 i i) as E.
    rewrite Nat.add_0_r in E. rewrite E, lag_mean_diag. reflexivity.
  - rewrite sum_upto_div.
    transitivity (sum_upto d (fun i => sum_upto T (g i))).
    + field. apply Qnat_nonzero, HT.
    + rewrite (sum_upto_blocks T d). apply (sum_upto_swap d T g).
Qed.

Lemma toeplitzify_trace_witness :
  (trace (matrix_toeplitzify_in exact example_cov4 2 2) == trace example_cov4)%Q.
Proof.
  apply (@toeplitzify_trace example_cov4 2 2); [lia | lia | reflexivity].
Defined.

(** C10 as stated fails in float32: the division by [T] rounds.  For the
    diagonal matrix of 1, 13, 0, 0, 0, 0 with [T = 3] and [d = 2], of trace
    14, the diagonal of the output is 1/3 and 13/3 rounded, three times
    each, and its trace is [14 + 2^-25 + 2^-21]; every sum of that run has
    one term that is not zero.  For the diagonal matrix of 5, 0, ..., 0
    with [T = 7] and [d = 1] the trace computed in float32 differs as
    well: it is [5 + 2^-21], not 5. *)
Lemma toeplitzify_trace_float32 :
  (shape2 example_diag_1_13 = (3 * 2, 3 * 2)
   /\ f32_diagonal (cast2 binary32 example_diag_1_13)
      = [Some 1; Some 13; Some 0; Some 0; Some 0; Some 0]%Q
   /\ f32_diagonal (matrix_toeplitzify_in binary32 (cast2 binary32 example_diag_1_13) 3 2)
      = [Some (11184811 # 33554432); Some (9087659 # 2097152);
         Some (11184811 # 33554432); Some (9087659 # 2097152);
         Some (11184811 # 33554432); Some (9087659 # 2097152)]%Q
   /\ (3 * (11184811 # 33554432) + 3 * (9087659 # 2097152)
       == 14 + (1 # 33554432) + (1 # 2097152))%Q)
  /\ (shape2 example_diag_5 = (7 * 1, 7 * 1)
      /\ f32_value (trace_in binary32 (cast2 binary32 example_diag_5)) = Some 5%Q
      /\ f32_diagonal (matrix_toeplitzify_in binary32 (cast2 binary32 example_diag_5) 7 1)
         = repeat (Some (5991863 # 8388608)%Q) 7
      /\ f32_value (trace_in binary32
                      (matrix_toeplitzify_in binary32 (cast2 binary32 example_diag_5) 7 1))
         = Some (10485761 # 2097152)%Q).
Proof.
  split.
  - split; [reflexivity|]. split; [vm_compute; reflexivity|].
    split; [vm_compute; reflexivity|]. reflexivity.
  - split; [reflexivity|]. split; [vm_compute; reflexivity|].
    split; vm_compute; reflexivity.
Qed.


Lemma lag_mean_toeplitzify (M : Tensor2) (T d k i j : nat) :
  0 < T -> rows M = T * d -> cols M = T * d -> k < T -> i < d -> j < d ->
  (lag_mean (matrix_toeplitzify M T d) T d k i j == lag_mean M T d k i j)%Q.
Proof.
  intros HT Hr Hc Hk Hi Hj. unfold lag_mean at 1.
  rewrite (@sum_upto_ext (T - k) _ (fun _ => lag_mean M T d k i j)).
  - rewrite sum_upto_const. field. apply Qnat_nonzero. lia.
  - intros m Hm. unfold symmetrized.
    rewrite !matrix_toeplitzify_at by (assumption || lia).
    rewrite <- (toeplitz_entry_sym M T d m (m + k) i j).
    rewrite toeplitz_entry_lag. field.
Qed.

(** C5, amended.  In exact arithmetic [matrix_toeplitzify] is idempotent:
    applied to its own output it returns that output. *)
Theorem toeplitzify_idempotent (M : Tensor2) (T d : nat) :
  0 < T -> 0 < d -> shape2 M = (T * d, T * d) ->
  mat_eq (matrix_toeplitzify_in exact (matrix_toeplitzify_in exact M T d) T d)
         (matrix_toeplitzify_in exact M T d).
Proof.
  intros HT Hd Hs. injection Hs as Hr Hc.
  rewrite (matrix_toeplitzify_exact M T d).
  rewrite (matrix_toeplitzify_exact (matrix_toeplitzify M T d) T d).
  split.
  - unfold shape2. rewrite !matrix_toeplitzify_rows, !matrix_toeplitzify_cols.
    reflexivity.
  - intros a b Ha Hb.
    rewrite matrix_toeplitzify_rows in Ha. rewrite matrix_toeplitzify_cols in Hb.
    destruct (block_index _ _ Ha) as (Ea & Ha1 & Ha2).
    destruct (block_index _ _ Hb) as (Eb & Hb1 & Hb2).
    rewrite Ea, Eb.
    rewrite (@matrix_toeplitzify_at (matrix_toeplitzify M T d) T d)
      by (assumption || apply matrix_toeplitzify_rows || apply matrix_toeplitzify_cols).
    rewrite (@matrix_toeplitzify_at M T d) by assumption.
    unfold toeplitz_entry.
    destruct (Nat.ltb_spec (a / d) (b / d)), (Nat.ltb_spec (b / d) (a / d));
      rewrite ?lag_mean_toeplitzify by (assumption || lia); reflexivity.
Qed.

Lemma toeplitzify_idempotent_witness :
  mat_eq (matrix_toeplitzify_in exact (matrix_toeplitzify_in exact example_cov4 2 2) 2 2)
         (matrix_toeplitzify_in exact example_cov4 2 2).
Proof.
  apply (@toeplitzify_idempotent example_cov4 2 2); [lia | lia | reflexivity].
Defined.

(** C5 as stated fails in float32.  For the diagonal matrix of
    5, 0, ..., 0 with [T = 7] and [d = 1], the first application puts 5/7
    rounded, [5991863 * 2^-23], on the diagonal; the second sums seven
    copies of it term by term and divides by 7, which gives
    [11983727 * 2^-24], one unit in the last place above. *)
Lemma toeplitzify_idempotent_float32 :
  shape2 example_diag_5 = (7 * 1, 7 * 1)
  /\ f32_diagonal (matrix_toeplitzify_in binary32 (cast2 binary32 example_diag_5) 7 1)
     = repeat (Some (5991863 # 8388608)%Q) 7
  /\ f32_diagonal
       (matrix_toeplitzify_in binary32
          (matrix_toeplitzify_in binary32 (cast2 binary32 example_diag_5) 7 1) 7 1)
     = repeat (Some (11983727 # 16777216)%Q) 7
  /\ ~ (5991863 # 8388608 == 11983727 # 16777216)%Q.
Proof.
  split; [reflexivity|]. split; [vm_compute; reflexivity|].
  split; [vm_compute; reflexivity|]. intros H. discriminate H.
Qed.


(** *** [rectify_spectrum] *)

Lemma Qltb_lt (x y : Q) : Qltb x y = true <-> (x < y)%Q.
Proof.
  unfold Qltb. rewrite negb_true_iff. split.
  - intros H. apply Qnot_le_lt. intros L. apply Qle_bool_iff in L. congruence.
  - intros H. destruct (Qle_bool y x) eqn:E; [|reflexivity].
    apply Qle_bool_iff in E. lra.
Qed.

Lemma Qltb_ge (x y : Q) : Qltb x y = false <-> (y <= x)%Q.
Proof.
  unfold Qltb. rewrite negb_false_iff. apply Qle_bool_iff.
Qed.

Lemma matvec_shift (n : nat) (A B : Tensor2) (c : Q) (v : nat -> Q) (i : nat) :
  i < n ->
  (forall j, j < n -> (at2 B i j == at2 A i j + (if i =? j then c else 0))%Q) ->
  (matvec n B v i == matvec n A v i + c * v i)%Q.
Proof.
  intros Hi HB. unfold matvec.
  rewrite <- (@sum_upto_delta n i (fun j => c * v j)%Q) by exact Hi.
  rewrite <- sum_upto_plus. apply sum_upto_ext. intros j Hj.
  rewrite (HB j Hj). destruct (i =? j); ring.
Qed.

Lemma dot_shift (n : nat) (A B : Tensor2) (c : Q) (v : nat -> Q) :
  (forall i j, i < n -> j < n ->
     (at2 B i j == at2 A i j + (if i =? j then c else 0))%Q) ->
  (dot n v (matvec n B v) == dot n v (matvec n A v) + c * dot n v v)%Q.
Proof.
  intros HB. unfold dot. rewrite <- sum_upto_scal, <- sum_upto_plus.
  apply sum_upto_ext. intros i Hi.
  rewrite (@matvec_shift n A B c v i Hi) by (intros; apply HB; assumption).
  ring.
Qed.

Lemma Qmin_cases (x y : Q) : Qmin x y = x \/ Qmin x y = y.
Proof.
  unfold Qmin, GenericMinMax.gmin. destruct (x ?= y)%Q; auto.
Qed.

Lemma fold_left_Qmin_le (l : list Q) (x : Q) :
  (fold_left Qmin l x <= x)%Q /\ forall y, In y l -> (fold_left Qmin l x <= y)%Q.
Proof.
  revert x. induction l as [|a l IH]; intros x; cbn [fold_left].
  - split; [lra | intros y []].
  - destruct (IH (Qmin x a)) as [H1 H2].
    pose proof (Q.le_min_l x a). pose proof (Q.le_min_r x a).
    split; [lra|]. intros y [<-|Hy]; [lra | apply H2, Hy].
Qed.

Lemma fold_left_Qmin_in (l : list Q) (x : Q) : In (fold_left Qmin l x) (x :: l).
Proof.
  revert x. induction l as [|a l IH]; intros x; cbn [fold_left].
  - left. reflexivity.
  - destruct (IH (Qmin x a)) as [E|Hin].
    + rewrite <- E. destruct (Qmin_cases x a) as [-> | ->].
      * left. reflexivity.
      * right. left. reflexivity.
    + right. right. exact Hin.
Qed.

(** [numpy.min] returns a least member of a list that is not empty. *)
Lemma np_min_spec (l : list Q) :
  l <> [] ->
  exists m, np_min l = Return m /\ In m l /\ forall x, In x l -> (m <= x)%Q.
Proof.
  destruct l as [|x l]; [congruence|]. intros _.
  exists (fold_left Qmin l x). split; [reflexivity|]. split.
  - apply fold_left_Qmin_in.
  - intros y [<-|Hy].
    + apply (proj1 (fold_left_Qmin_le l x)).
    + apply (proj2 (fold_left_Qmin_le l x)), Hy.
Qed.

Lemma Qsquare_nonneg (x : Q) : (0 <= x * x)%Q.
Proof.
  destruct (Qlt_le_dec x 0) as [Hn|Hp].
  - setoid_replace (x * x)%Q with ((- x) * (- x))%Q by ring.
    apply Qmult_le_0_compat; lra.
  - apply Qmult_le_0_compat; lra.
Qed.

Lemma Qsquare_pos (x : Q) : ~ (x == 0)%Q -> (0 < x * x)%Q.
Proof.
  intros Hx. destruct (Qlt_le_dec x 0) as [Hn|Hp].
  - setoid_replace (x * x)%Q with ((- x) * (- x))%Q by ring.
    apply Qmult_lt_0_compat; lra.
  - assert (0 < x)%Q.
    { apply Qle_lteq in Hp. destruct Hp as [Hp|Hp]; [exact Hp|].
      exfalso. apply Hx. symmetry. exact Hp. }
    apply Qmult_lt_0_compat; assumption.
Qed.

Lemma dot_pos (n : nat) (v : nat -> Q) (i : nat) :
  i < n -> ~ (v i == 0)%Q -> (0 < dot n v v)%Q.
Proof.
  intros Hi Hv. unfold dot. apply sum_upto_pos with (k := i).
  - intros j _. apply Qsquare_nonneg.
  - exact Hi.
  - apply Qsquare_pos, Hv.
Qed.

(** An eigenvalue is at least any lower bound of the spectrum. *)
Lemma eigenvalue_above_bound (A : Tensor2) (lam x : Q) :
  spectrum_bounded_below A lam -> is_eigenvalue A x -> (lam <= x)%Q.
Proof.
  intros Hlow (v & (i & Hi & Hv) & Hev).
  pose proof (@dot_pos (rows A) v i Hi Hv) as Hpos.
  specialize (Hlow v).
  assert (E : (dot (rows A) v (matvec (rows A) A v) == x * dot (rows A) v v)%Q).
  { unfold dot. rewrite <- sum_upto_scal. apply sum_upto_ext.
    intros j Hj. rewrite (Hev j Hj). ring. }
  rewrite E in Hlow.
  apply Qmult_lt_0_le_reg_r with (z := dot (rows A) v v); assumption.
Qed.

Lemma shifted_rows (A B : Tensor2) (c : Q) : shifted A c B -> rows B = rows A.
Proof. intros [Hs _]. unfold shape2 in Hs. congruence. Qed.

Lemma shifted_entries (A B : Tensor2) (c : Q) :
  rows A = cols A -> shifted A c B ->
  forall i j, i < rows A -> j < rows A ->
    (at2 B i j == at2 A i j + (if i =? j then c else 0))%Q.
Proof.
  intros Hsq [_ HB] i j Hi Hj. apply HB; [assumption | rewrite <- Hsq; assumption].
Qed.

(** Adding [c] to the diagonal moves every bound of the spectrum and
    every eigenvalue by [c]. *)
Lemma shifted_bound (A B : Tensor2) (c mu : Q) :
  rows A = cols A -> shifted A c B ->
  (spectrum_bounded_below A mu <-> spectrum_bounded_below B (mu + c)).
Proof.
  intros Hsq Hsh. pose proof (@shifted_entries A B c Hsq Hsh) as HB.
  unfold spectrum_bounded_below. rewrite (@shifted_rows A B c Hsh).
  split; intros H v; specialize (H v);
    rewrite (@dot_shift (rows A) A B c v HB) in *; lra.
Qed.

Lemma shifted_eigenvalue (A B : Tensor2) (c mu : Q) :
  rows A = cols A -> shifted A c B ->
  (is_eigenvalue A mu <-> is_eigenvalue B (mu + c)).
Proof.
  intros Hsq Hsh. pose proof (@shifted_entries A B c Hsq Hsh) as HB.
  unfold is_eigenvalue. rewrite (@shifted_rows A B c Hsh).
  split; intros (v & Hv & Hev); exists v; (split; [exact Hv|]); intros i Hi;
    specialize (Hev i Hi);
    rewrite (@matvec_shift (rows A) A B c v i Hi) in * by (intros; apply HB; assumption);
    lra.
Qed.

(** The matrix the source assigns to [cov] is [cov] with [c] added on
    its diagonal. *)
Lemma rectify_spectrum_shifted (cov : Tensor2) (c : Q) :
  rows cov = cols cov ->
  shifted cov c (add2 cov (scalar_mul2 c (eye (rows cov) (rows cov)))).
Proof.
  intros Hsq. split.
  - unfold shape2, add2, map2_2, scalar_mul2, eye. cbn [rows cols].
    rewrite <- Hsq, !bdim_same. reflexivity.
  - intros i j Hi Hj. unfold add2, map2_2, scalar_mul2, eye. cbn [rows cols at2].
    rewrite <- Hsq in Hj |- *. rewrite !bidx_lt by assumption.
    destruct (i =? j); ring.
Qed.

Lemma bound_compat (A : Tensor2) (x y : Q) :
  (x == y)%Q -> spectrum_bounded_below A x -> spectrum_bounded_below A y.
Proof. intros E H v. specialize (H v). rewrite <- E. exact H. Qed.

Lemma eigenvalue_compat (A : Tensor2) (x y : Q) :
  (x == y)%Q -> is_eigenvalue A x -> is_eigenvalue A y.
Proof.
  intros E (v & Hv & Hev). exists v. split; [exact Hv|].
  intros i Hi. rewrite <- E. apply Hev, Hi.
Qed.

Lemma shifted_compat (A B : Tensor2) (x y : Q) :
  (x == y)%Q -> shifted A x B -> shifted A y B.
Proof.
  intros E [Hs HB]. split; [exact Hs|]. intros i j Hi Hj.
  rewrite (HB i j Hi Hj). destruct (i =? j); [rewrite E|]; reflexivity.
Qed.

(** The example matrix and its solver. *)
Lemma example_indefinite_symmetric : symmetric example_indefinite.
Proof.
  intros a b Ha Hb. change (a < 2) in Ha. change (b < 2) in Hb.
  destruct a as [|[|a]]; destruct b as [|[|b]]; try lia; reflexivity.
Qed.

Lemma example_indefinite_min_eigenvalue : is_min_eigenvalue example_indefinite (-1).
Proof.
  split.
  - exists (fun i => if i =? 0 then 1 else -1)%Q. split.
    + exists 0. split; [cbn; lia | cbn; lra].
    + intros i Hi. change (i < 2) in Hi.
      destruct i as [|[|i]]; try lia; vm_compute; reflexivity.
  - intros v. unfold dot, matvec. cbn.
    generalize (v 0) (v 1). intros x y.
    assert (H : (0 <= (x + y) * (x + y))%Q).
    { destruct (Qlt_le_dec (x + y) 0) as [Hn|Hp].
      - setoid_replace ((x + y) * (x + y))%Q with ((- (x + y)) * (- (x + y)))%Q
          by ring.
        apply Qmult_le_0_compat; lra.
      - apply Qmult_le_0_compat; lra. }
    setoid_replace ((x + y) * (x + y))%Q with (x * x + 2 * (x * y) + y * y)%Q
      in H by ring.
    lra.
Qed.

Lemma example_indefinite_eigenvalue_3 : is_eigenvalue example_indefinite 3.
Proof.
  exists (fun _ => 1%Q). split.
  - exists 0. split; [cbn; lia | cbn; lra].
  - intros i Hi. change (i < 2) in Hi.
    destruct i as [|[|i]]; try lia; vm_compute; reflexivity.
Qed.

Lemma example_eigvalsh_exact :
  forall x, In x (example_eigvalsh example_indefinite) -> is_eigenvalue example_indefinite x.
Proof.
  intros x [<-|[<-|[]]].
  - exact (proj1 example_indefinite_min_eigenvalue).
  - exact example_indefinite_eigenvalue_3.
Qed.

(** C2, amended.  In exact arithmetic, for a square [cov]:
    [rectify_spectrum] takes the least value [m] the solver returns; when
    [m < 0] it replaces [cov] by [cov + (-m + epsilon) * I], which moves
    every bound of the spectrum and every eigenvalue up by [-m + epsilon],
    and prints the warning when [verbose]; when [m >= 0] it leaves [cov]
    as it is, also when [m < epsilon].  When moreover the solver is exact
    (it returns eigenvalues of [cov] only, the least one [lam] among
    them), [m] is [lam], and for [lam < 0] the least eigenvalue of the new
    matrix is exactly [epsilon]. *)
Theorem rectify_spectrum_min_eigenvalue
    (eigvalsh : Tensor2 -> list Q) (cov : Tensor2) (epsilon : Q) (verbose : bool) :
  rows cov = cols cov ->
  (eigvalsh cov <> [] ->
   exists m,
     In m (eigvalsh cov) /\ (forall x, In x (eigvalsh cov) -> (m <= x)%Q)
     /\ ((m < 0)%Q ->
           exists cov',
             rectify_spectrum_in exact eigvalsh cov epsilon verbose
             = Return (cov',
                       if verbose
                       then ["Warning: non-PSD matrix (had to increase eigenvalues)"%string]
                       else [])
             /\ shifted cov (- m + epsilon) cov'
             /\ (forall mu, spectrum_bounded_below cov mu
                            <-> spectrum_bounded_below cov' (mu - m + epsilon))
             /\ (forall mu, is_eigenvalue cov mu
                            <-> is_eigenvalue cov' (mu - m + epsilon)))
     /\ ((0 <= m)%Q ->
           rectify_spectrum_in exact eigvalsh cov epsilon verbose = Return (cov, [])))
  /\ (forall lam,
        is_min_eigenvalue cov lam -> In lam (eigvalsh cov) ->
        (forall x, In x (eigvalsh cov) -> is_eigenvalue cov x) ->
        ((lam < 0)%Q ->
           exists cov' out,
             rectify_spectrum_in exact eigvalsh cov epsilon verbose = Return (cov', out)
             /\ shifted cov (- lam + epsilon) cov'
             /\ is_min_eigenvalue cov' epsilon)
        /\ ((0 <= lam)%Q ->
              rectify_spectrum_in exact eigvalsh cov epsilon verbose = Return (cov, []))).
Proof.
  intros Hsq. rewrite rectify_spectrum_exact.
  assert (A : eigvalsh cov <> [] ->
    exists m,
     In m (eigvalsh cov) /\ (forall x, In x (eigvalsh cov) -> (m <= x)%Q)
     /\ ((m < 0)%Q ->
           exists cov',
             rectify_spectrum eigvalsh cov epsilon verbose
             = Return (cov',
                       if verbose
                       then ["Warning: non-PSD matrix (had to increase eigenvalues)"%string]
                       else [])
             /\ shifted cov (- m + epsilon) cov'
             /\ (forall mu, spectrum_bounded_below cov mu
                            <-> spectrum_bounded_below cov' (mu - m + epsilon))
             /\ (forall mu, is_eigenvalue cov mu
                            <-> is_eigenvalue cov' (mu - m + epsilon)))
     /\ ((0 <= m)%Q ->
           rectify_spectrum eigvalsh cov epsilon verbose = Return (cov, []))).
  { intros Hne. destruct (@np_min_spec (eigvalsh cov) Hne) as (m & Hmin & Hin & Hle).
    exists m. split; [exact Hin|]. split; [exact Hle|].
    unfold rectify_spectrum. rewrite Hmin. cbn [bind]. split.
    - intros Hneg. apply Qltb_lt in Hneg. rewrite Hneg.
      eexists. split; [reflexivity|].
      pose proof (@rectify_spectrum_shifted cov (- m + epsilon) Hsq) as Hsh.
      split; [exact Hsh|]. split.
      + intros mu. rewrite (@shifted_bound cov _ (- m + epsilon) mu Hsq Hsh).
        split; apply bound_compat; ring.
      + intros mu. rewrite (@shifted_eigenvalue cov _ (- m + epsilon) mu Hsq Hsh).
        split; apply eigenvalue_compat; ring.
    - intros Hpos. apply Qltb_ge in Hpos. rewrite Hpos. reflexivity. }
  split; [exact A|].
  intros lam Hlam Hin Hall.
  assert (Hne : eigvalsh cov <> []) by (intros E; rewrite E in Hin; exact Hin).
  destruct (A Hne) as (m & Hm & Hle & Hneg & Hpos).
  assert (E : (m == lam)%Q).
  { apply Qle_antisym; [apply Hle, Hin|].
    apply eigenvalue_above_bound with (A := cov); [exact (proj2 Hlam) | apply Hall, Hm]. }
  split.
  - intros Hl. destruct Hneg as (cov' & Hrun & Hsh & Hb & He); [lra|].
    exists cov'. eexists. split; [exact Hrun|]. split.
    + apply shifted_compat with (x := (- m + epsilon)%Q); [rewrite E; reflexivity | exact Hsh].
    + destruct Hlam as [Hev Hlow]. split.
      * apply eigenvalue_compat with (x := (lam - m + epsilon)%Q); [rewrite E; ring|].
        exact (proj1 (He lam) Hev).
      * apply bound_compat with (x := (lam - m + epsilon)%Q); [rewrite E; ring|].
        exact (proj1 (Hb lam) Hlow).
  - intros Hl. apply Hpos. lra.
Qed.

Lemma rectify_spectrum_min_eigenvalue_witness :
  exists cov' out,
    rectify_spectrum_in exact example_eigvalsh example_indefinite (1 # 1000000) true
    = Return (cov', out)
    /\ shifted example_indefinite (- -1 + (1 # 1000000)) cov'
    /\ is_min_eigenvalue cov' (1 # 1000000).
Proof.
  apply (proj1 (proj2 (@rectify_spectrum_min_eigenvalue example_eigvalsh example_indefinite
                         (1 # 1000000) true eq_refl)
                      (-1)%Q example_indefinite_min_eigenvalue
                      (or_introl eq_refl) example_eigvalsh_exact)).
  reflexivity.
Defined.


Lemma rectified_f32_min_eigenvalue : is_min_eigenvalue rectified_f32 (1 # 1048576).
Proof.
  split.
  - exists (fun i => if i =? 0 then 1 else -1)%Q. split.
    + exists 0. split; [cbn; lia | cbn; lra].
    + intros i Hi. change (i < 2) in Hi.
      destruct i as [|[|i]]; try lia; vm_compute; reflexivity.
  - intros v. unfold dot, matvec. cbn.
    generalize (v 0) (v 1). intros x y.
    pose proof (Qsquare_nonneg (x + y)) as H.
    setoid_replace ((x + y) * (x + y))%Q with (x * x + 2 * (x * y) + y * y)%Q
      in H by ring.
    lra.
Qed.

(** C2 as stated fails in float32.  For [cov = [[1, 2], [2, 1]]], whose
    eigenvalues -1 and 3 the solver returns exactly, and
    [epsilon = 1e-6]: the shift [1 + 1e-6] rounds to [1 + 2^-20], the
    diagonal becomes [2 + 2^-20], and the least eigenvalue of the result
    is [2^-20], which is below [epsilon]. *)
Lemma rectify_spectrum_float32 :
  f32_value_rows (cast2 binary32 example_indefinite) = [[Some 1; Some 2]; [Some 2; Some 1]]%Q
  /\ map f32_value (example_eigvalsh_f32 (cast2 binary32 example_indefinite))
     = [Some (-1); Some 3]%Q
  /\ is_min_eigenvalue example_indefinite (-1)
  /\ f32_result_matrix
       (rectify_spectrum_in binary32 example_eigvalsh_f32
          (cast2 binary32 example_indefinite) (1 # 1000000) false)
     = Some (map (map Some) (to_rows rectified_f32))
  /\ is_min_eigenvalue rectified_f32 (1 # 1048576)
  /\ ((1 # 1048576) < (1 # 1000000))%Q
  /\ ~ spectrum_bounded_below rectified_f32 (1 # 1000000).
Proof.
  split; [vm_compute; reflexivity|]. split; [vm_compute; reflexivity|].
  split; [exact example_indefinite_min_eigenvalue|].
  split; [vm_compute; reflexivity|].
  split; [exact rectified_f32_min_eigenvalue|].
  split; [reflexivity|].
  intros H.
  pose proof (@eigenvalue_above_bound rectified_f32 (1 # 1000000)%Q (1 # 1048576)%Q H
                (proj1 rectified_f32_min_eigenvalue)) as Hle.
  revert Hle. apply Qlt_not_le. reflexivity.
Qed.

(** *** [calc_pi_from_cov] *)

Lemma slice2_leading (A : Tensor2) (k : nat) :
  k <= rows A -> k <= cols A ->
  shape2 (slice2 A k k) = (k, k)
  /\ forall i j, at2 (slice2 A k k) i j = at2 A i j.
Proof.
  intros Hr Hc. unfold shape2, slice2. cbn [rows cols at2].
  rewrite !Nat.min_l by assumption. auto.
Qed.

Lemma calc_pi_from_cov_square (logdet : Tensor2 -> Float) (cov : Tensor2) :
  rows cov = cols cov ->
  calc_pi_from_cov logdet cov
  = Return (fsub (logdet (slice2 cov (rows cov / 2) (rows cov / 2)))
                 (fmul (Fin (1 # 2)) (logdet cov))).
Proof.
  intros Hsq. unfold calc_pi_from_cov, torch_logdet.
  assert (Hh : rows cov / 2 <= rows cov) by (apply Nat.Div0.div_le_upper_bound; lia).
  unfold slice2 at 1 2. cbn [rows cols].
  rewrite <- Hsq, Nat.eqb_refl. cbn [bind].
  rewrite Nat.eqb_refl. reflexivity.
Qed.

(** C4, amended.  On a square matrix of even size [2 * T_pi],
    [calc_pi_from_cov] returns [logdet(cov[:T_pi, :T_pi]) - 0.5 * logdet(cov)],
    where the slice is the leading [T_pi x T_pi] block: the number
    [a - c / 2] when the two log-determinants are the numbers [a] and [c],
    and a value that is not finite when one of them is not.  That value is
    the mutual information of the first and the last [T_pi] coordinates,
    [(a + b - c) / 2] with [b] the log-determinant of the trailing block,
    exactly when [a = b]. *)
Theorem calc_pi_from_cov_even (logdet : Tensor2 -> Float) (cov : Tensor2) (T_pi : nat) :
  shape2 cov = (2 * T_pi, 2 * T_pi) ->
  calc_pi_from_cov logdet cov
  = Return (fsub (logdet (slice2 cov T_pi T_pi)) (fmul (Fin (1 # 2)) (logdet cov)))
  /\ shape2 (slice2 cov T_pi T_pi) = (T_pi, T_pi)
  /\ (forall i j, at2 (slice2 cov T_pi T_pi) i j = at2 cov i j)
  /\ (forall a c,
        logdet (slice2 cov T_pi T_pi) = Fin a -> logdet cov = Fin c ->
        exists p, calc_pi_from_cov logdet cov = Return (Fin p)
                  /\ (p == a - (1 # 2) * c)%Q)
  /\ (logdet (slice2 cov T_pi T_pi) = NonFinite \/ logdet cov = NonFinite ->
      calc_pi_from_cov logdet cov = Return NonFinite)
  /\ (forall a b c PI,
        logdet (slice2 cov T_pi T_pi) = Fin a ->
        logdet (slice2_from cov T_pi T_pi) = Fin b ->
        logdet cov = Fin c ->
        calc_pi_from_cov logdet cov = Return PI ->
        (float_eq PI (gaussian_mutual_information logdet cov T_pi) <-> (a == b)%Q)).
Proof.
  intros Hs. unfold shape2 in Hs.
  assert (Hr : rows cov = 2 * T_pi) by congruence.
  assert (Hc : cols cov = 2 * T_pi) by congruence.
  assert (Hrun : calc_pi_from_cov logdet cov
                 = Return (fsub (logdet (slice2 cov T_pi T_pi))
                                (fmul (Fin (1 # 2)) (logdet cov)))).
  { rewrite calc_pi_from_cov_square by congruence.
    rewrite Hr, Nat.mul_comm, Nat.div_mul by discriminate. reflexivity. }
  split; [exact Hrun|].
  destruct (@slice2_leading cov T_pi) as [Hshape Hat]; [lia | lia |].
  split; [exact Hshape|]. split; [exact Hat|]. rewrite Hrun. split; [|split].
  - intros a c -> ->. cbn [fsub fmul]. eexists. split; reflexivity.
  - intros [-> | ->]; [reflexivity|].
    destruct (logdet (slice2 cov T_pi T_pi)); reflexivity.
  - intros a b c PI Ha Hb Hc' H. injection H as <-.
    unfold gaussian_mutual_information. rewrite Ha, Hb, Hc'.
    cbn [fsub fmul fadd float_eq]. split; intros E.
    + assert (E' : (a - (1 # 2) * c - (1 # 2) * (a + b - c) == 0)%Q)
        by (rewrite E; ring).
      lra.
    + rewrite <- E. field.
Qed.

Lemma calc_pi_from_cov_even_witness :
  calc_pi_from_cov example_logdet_f32 example_cov_pi
  = Return (fsub (example_logdet_f32 (slice2 example_cov_pi 1 1))
                 (fmul (Fin (1 # 2)) (example_logdet_f32 example_cov_pi)))
  /\ shape2 (slice2 example_cov_pi 1 1) = (1, 1)
  /\ (forall i j, at2 (slice2 example_cov_pi 1 1) i j = at2 example_cov_pi i j)
  /\ (forall a c,
        example_logdet_f32 (slice2 example_cov_pi 1 1) = Fin a ->
        example_logdet_f32 example_cov_pi = Fin c ->
        exists p, calc_pi_from_cov example_logdet_f32 example_cov_pi = Return (Fin p)
                  /\ (p == a - (1 # 2) * c)%Q)
  /\ (example_logdet_f32 (slice2 example_cov_pi 1 1) = NonFinite
      \/ example_logdet_f32 example_cov_pi = NonFinite ->
      calc_pi_from_cov example_logdet_f32 example_cov_pi = Return NonFinite)
  /\ (forall a b c PI,
        example_logdet_f32 (slice2 example_cov_pi 1 1) = Fin a ->
        example_logdet_f32 (slice2_from example_cov_pi 1 1) = Fin b ->
        example_logdet_f32 example_cov_pi = Fin c ->
        calc_pi_from_cov example_logdet_f32 example_cov_pi = Return PI ->
        (float_eq PI (gaussian_mutual_information example_logdet_f32 example_cov_pi 1)
         <-> (a == b)%Q)).
Proof.
  apply (@calc_pi_from_cov_even example_logdet_f32 example_cov_pi 1). reflexivity.
Defined.

(** C4 as stated fails: the value is not the mutual information when the
    two diagonal blocks have different determinants.  For the covariance
    [[1, 1], [1, 2]] the code returns [ln 1 - ln 1 / 2 = 0], and the mutual
    information is [(ln 1 + ln 2 - ln 1) / 2 = ln 2 / 2], about 0.347. *)
Lemma calc_pi_from_cov_not_mutual_information :
  shape2 example_cov_pi = (2 * 1, 2 * 1)
  /\ to_rows example_cov_pi = [[1; 1]; [1; 2]]%Q
  /\ example_logdet_f32 (slice2 example_cov_pi 1 1) = Fin 0
  /\ example_logdet_f32 (slice2_from example_cov_pi 1 1) = Fin ln2_f32
  /\ example_logdet_f32 example_cov_pi = Fin 0
  /\ float_value (calc_pi_from_cov example_logdet_f32 example_cov_pi) = Some 0%Q
  /\ float_value (Return (gaussian_mutual_information example_logdet_f32 example_cov_pi 1))
     = Some (1453635 # 4194304)%Q
  /\ ~ float_eq (Fin 0) (Fin (1453635 # 4194304)).
Proof.
  repeat (split; [vm_compute; reflexivity|]).
  cbn [float_eq]. intros H. discriminate H.
Qed.

(** C9. [calc_pi_from_cov] does not reject a square matrix of odd size
    [n = 2 * k + 1]: [T_pi] is [n / 2 = k], and the result is
    [logdet(cov[:k, :k]) - 0.5 * logdet(cov)] over the whole matrix. *)
Theorem calc_pi_from_cov_odd (logdet : Tensor2 -> Float) (cov : Tensor2) (k : nat) :
  shape2 cov = (2 * k + 1, 2 * k + 1) ->
  (2 * k + 1) / 2 = k
  /\ calc_pi_from_cov logdet cov
     = Return (fsub (logdet (slice2 cov k k)) (fmul (Fin (1 # 2)) (logdet cov)))
  /\ shape2 (slice2 cov k k) = (k, k).
Proof.
  intros Hs. unfold shape2 in Hs.
  assert (Hr : rows cov = 2 * k + 1) by congruence.
  assert (Hc : cols cov = 2 * k + 1) by congruence.
  assert (Hk : (2 * k + 1) / 2 = k).
  { rewrite Nat.mul_comm. apply flat_div. lia. }
  split; [exact Hk|]. split.
  - rewrite calc_pi_from_cov_square by congruence.
    rewrite Hr, Hk. reflexivity.
  - apply slice2_leading; lia.
Qed.

Lemma calc_pi_from_cov_odd_witness :
  (2 * 1 + 1) / 2 = 1
  /\ calc_pi_from_cov example_logdet example_cov3
     = Return (fsub (example_logdet (slice2 example_cov3 1 1))
                    (fmul (Fin (1 # 2)) (example_logdet example_cov3)))
  /\ shape2 (slice2 example_cov3 1 1) = (1, 1).
Proof.
  apply (@calc_pi_from_cov_odd example_logdet example_cov3 1). reflexivity.
Defined.

(** *** [calc_cov_from_data] *)

Lemma calc_cov_from_data_unfold (xs_pad : Tensor3) (src_mask : BoolTensor2) (T : nat)
    (toeplitzify : bool) (reg : Q) :
  calc_cov_from_data xs_pad src_mask T toeplitzify reg
  = match min_list (bsum_dim1 src_mask) with
    | None => Raise RuntimeError
    | Some shortest =>
      if shortest <=? T then Raise (ValueError T_too_long) else
      if negb (windows_agree xs_pad src_mask T) then Raise RuntimeError else
      if Qeq_bool (sum2 (cv_mask_float src_mask T)) 0
      then Return (NaNs (T * n3_2 xs_pad) (T * n3_2 xs_pad))
      else
        let cov_est := cv_cov_est (cv_lags xs_pad T) (cv_mask_float src_mask T) in
        Return (FiniteT (cv_regularized
                           (if toeplitzify
                            then matrix_toeplitzify cov_est T (n3_2 xs_pad)
                            else cov_est)
                           (T * n3_2 xs_pad) reg))
    end.
Proof. reflexivity. Qed.

(** A mask of the shape of the batch has one window for each lagged
    vector. *)
Lemma windows_agree_same_shape (F : Type) (xs_pad : Tensor3_of F) (src_mask : BoolTensor2)
    (T : nat) :
  brows src_mask = n3_0 xs_pad -> bcols src_mask = n3_1 xs_pad ->
  0 < n3_2 xs_pad -> 0 < T -> T <= n3_1 xs_pad ->
  windows_agree xs_pad src_mask T = true.
Proof.
  intros Hr Hc Hd HT HL. unfold windows_agree. rewrite Hr, Hc, Nat.eqb_refl.
  rewrite !andb_true_iff. repeat split.
  - apply Nat.ltb_lt, Hd.
  - apply Nat.ltb_lt, HT.
  - apply Nat.leb_le, HL.
Qed.

(** At [exact], [calc_cov_from_data_in] returns the matrix of
    [calc_cov_from_data] and raises as it does; where [calc_cov_from_data]
    returns the all-nan matrix, no window is valid and the divisions are
    by zero. *)
Lemma calc_cov_from_data_in_unfold (F : Type) (dt : Dtype F) (xs_pad : Tensor3_of F)
    (src_mask : BoolTensor2) (T : nat) (toeplitzify : bool) (reg : Q) :
  calc_cov_from_data_in dt xs_pad src_mask T toeplitzify reg
  = match min_list (bsum_dim1 src_mask) with
    | None => Raise RuntimeError
    | Some shortest =>
      if shortest <=? T then Raise (ValueError T_too_long) else
      if negb (windows_agree xs_pad src_mask T) then Raise RuntimeError else
      let cov_est := cv_cov_est_in dt (cv_lags xs_pad T) (cv_mask_float_in dt src_mask T) in
      let cov_est :=
        if toeplitzify then matrix_toeplitzify_in dt cov_est T (n3_2 xs_pad) else cov_est in
      Return (if Qltb 0 reg
              then add2_in dt cov_est
                     (scalar_mul2_in dt (dt_cast dt reg)
                        (eye_in dt (T * n3_2 xs_pad) (T * n3_2 xs_pad)))
              else cov_est)
    end.
Proof.
  unfold calc_cov_from_data_in, cv_cov_est_in, cv_mask_float_in.
  reflexivity.
Qed.

Lemma cv_cov_est_exact (lags mask_float : Tensor2) :
  cv_cov_est_in exact lags mask_float = cv_cov_est lags mask_float.
Proof.
  unfold cv_cov_est_in, cv_cov_est, div2_scalar_in, div2_scalar, matmul_in, matmul,
    mul2_in, mul2, sub2_in, sub2, sum2_dim0_keepdim_in, sum2_dim0_keepdim, sum2_in, sum2.
  cbn [exact dt_cast dt_add dt_sub dt_mul dt_div].
  reflexivity.
Qed.

Lemma cv_mask_float_exact (src_mask : BoolTensor2) (T : nat) :
  cv_mask_float_in exact src_mask T = cv_mask_float src_mask T.
Proof. reflexivity. Qed.

Lemma cv_regularized_exact (C : Tensor2) (n : nat) (reg : Q) :
  (if Qltb 0 reg
   then add2_in exact C (scalar_mul2_in exact (dt_cast exact reg) (eye_in exact n n))
   else C)
  = cv_regularized C n reg.
Proof. reflexivity. Qed.

Lemma calc_cov_from_data_in_exact (xs_pad : Tensor3) (src_mask : BoolTensor2) (T : nat)
    (toeplitzify : bool) (reg : Q) :
  calc_cov_from_data_in exact xs_pad src_mask T toeplitzify reg
  = match min_list (bsum_dim1 src_mask) with
    | None => Raise RuntimeError
    | Some shortest =>
      if shortest <=? T then Raise (ValueError T_too_long) else
      if negb (windows_agree xs_pad src_mask T) then Raise RuntimeError else
      let cov_est := cv_cov_est (cv_lags xs_pad T) (cv_mask_float src_mask T) in
      Return (cv_regularized
                (if toeplitzify
                 then matrix_toeplitzify cov_est T (n3_2 xs_pad)
                 else cov_est)
                (T * n3_2 xs_pad) reg)
    end.
Proof.
  rewrite calc_cov_from_data_in_unfold. cbv zeta.
  rewrite cv_cov_est_exact, cv_mask_float_exact, matrix_toeplitzify_exact.
  rewrite cv_regularized_exact. reflexivity.
Qed.

Lemma calc_cov_from_data_exact (xs_pad : Tensor3) (src_mask : BoolTensor2) (T : nat)
    (toeplitzify : bool) (reg : Q) (C : Tensor2) :
  calc_cov_from_data xs_pad src_mask T toeplitzify reg = Return (FiniteT C) ->
  calc_cov_from_data_in exact xs_pad src_mask T toeplitzify reg = Return C.
Proof.
  rewrite calc_cov_from_data_unfold, calc_cov_from_data_in_exact.
  destruct (min_list (bsum_dim1 src_mask)) as [m|]; [|discriminate].
  destruct (m <=? T); [discriminate|].
  destruct (negb (windows_agree xs_pad src_mask T)); [discriminate|].
  destruct (Qeq_bool _ 0); [discriminate|].
  cbv zeta. intros H. injection H as <-. reflexivity.
Qed.

Lemma calc_cov_from_data_exact_raise (xs_pad : Tensor3) (src_mask : BoolTensor2) (T : nat)
    (toeplitzify : bool) (reg : Q) (e : exn) :
  calc_cov_from_data xs_pad src_mask T toeplitzify reg = Raise e <->
  calc_cov_from_data_in exact xs_pad src_mask T toeplitzify reg = Raise e.
Proof.
  rewrite calc_cov_from_data_unfold, calc_cov_from_data_in_exact.
  destruct (min_list (bsum_dim1 src_mask)) as [m|];
    [|split; intros H; injection H as <-; reflexivity].
  destruct (m <=? T); [split; intros H; injection H as <-; reflexivity|].
  destruct (negb (windows_agree xs_pad src_mask T));
    [split; intros H; injection H as <-; reflexivity|].
  destruct (Qeq_bool _ 0); cbv zeta; split; discriminate.
Qed.

(** *** [torch.min] *)

Lemma fold_left_min_le (l : list nat) (x : nat) :
  fold_left Nat.min l x <= x /\ forall y, In y l -> fold_left Nat.min l x <= y.
Proof.
  revert x. induction l as [|a l IH]; intros x; cbn [fold_left].
  - split; [lia | intros y []].
  - destruct (IH (Nat.min x a)) as [H1 H2]. split; [lia|].
    intros y [<-|Hy]; [lia | apply H2, Hy].
Qed.

Lemma fold_left_min_in (l : list nat) (x : nat) :
  In (fold_left Nat.min l x) (x :: l).
Proof.
  revert x. induction l as [|a l IH]; intros x; cbn [fold_left].
  - left. reflexivity.
  - destruct (IH (Nat.min x a)) as [E|Hin].
    + rewrite <- E.
      destruct (Nat.min_spec x a) as [[_ Hm]|[_ Hm]]; rewrite Hm.
      * left. reflexivity.
      * right. left. reflexivity.
    + right. right. exact Hin.
Qed.

Lemma min_list_spec (l : list nat) :
  l <> [] ->
  exists m, min_list l = Some m /\ In m l /\ forall y, In y l -> m <= y.
Proof.
  destruct l as [|x l]; [congruence|]. intros _.
  exists (fold_left Nat.min l x). split; [reflexivity|]. split.
  - apply fold_left_min_in.
  - intros y [<-|Hy].
    + apply (proj1 (fold_left_min_le l x)).
    + apply (proj2 (fold_left_min_le l x)), Hy.
Qed.

Lemma shortest_spec (mask : BoolTensor2) :
  0 < brows mask ->
  exists m, min_list (bsum_dim1 mask) = Some m
            /\ (exists b, b < brows mask /\ row_count mask b = m)
            /\ forall b, b < brows mask -> m <= row_count mask b.
Proof.
  intros HB. destruct (@min_list_spec (bsum_dim1 mask)) as (m & E & Hin & Hle).
  - unfold bsum_dim1. destruct (brows mask); [lia | discriminate].
  - exists m. split; [exact E|]. unfold bsum_dim1 in Hin, Hle. split.
    + apply in_map_iff in Hin. destruct Hin as (b & Hb & Hin).
      apply in_seq in Hin. exists b. split; [lia | exact Hb].
    + intros b Hb. apply Hle, in_map, in_seq. lia.
Qed.

(** C3. On a non-empty batch, [calc_cov_from_data] raises the ValueError
    whose message says that T must be shorter than the shortest time
    series (and 2 * DCA.T for the DCA model) exactly when some sequence has
    at most [T] valid timesteps, that is when [T] is at least the least
    number of true entries of a mask row; it does so for B = 2, L = 10,
    d = 3, valid lengths 5 and 8, T = 5; a raise carries no matrix. *)
Theorem calc_cov_from_data_value_error :
  (forall (xs_pad : Tensor3) (src_mask : BoolTensor2) (T : nat)
          (toeplitzify : bool) (reg : Q),
     0 < brows src_mask ->
     (calc_cov_from_data xs_pad src_mask T toeplitzify reg
      = Raise (ValueError T_too_long)
      <-> exists b, b < brows src_mask /\ row_count src_mask b <= T))
  /\ (forall (xs_pad : Tensor3) (toeplitzify : bool) (reg : Q),
        (n3_0 xs_pad, n3_1 xs_pad, n3_2 xs_pad) = (2, 10, 3) ->
        calc_cov_from_data xs_pad (length_mask [5; 8] 10) 5 toeplitzify reg
        = Raise (ValueError T_too_long))
  /\ T_too_long
     = ("T must be shorter than the length of the shortest time series. "
        ++ "If you are using the DCA model, 2 * DCA.T must be shorter than "
        ++ "the shortest time series.")%string.
Proof.
  split; [|split; [|reflexivity]].
  - intros xs_pad src_mask T tz reg HB. rewrite calc_cov_from_data_unfold.
    destruct (@shortest_spec src_mask HB) as (m & -> & (b0 & Hb0 & E0) & Hle).
    destruct (Nat.leb_spec m T) as [Hm|Hm].
    + split; [|reflexivity]. intros _. exists b0. split; [exact Hb0 | lia].
    + split.
      * destruct (negb _); [discriminate|]. destruct (Qeq_bool _ 0); discriminate.
      * intros (b & Hb & Hc). specialize (Hle b Hb). lia.
  - intros xs_pad tz reg _. rewrite calc_cov_from_data_unfold. reflexivity.
Qed.

Lemma calc_cov_from_data_value_error_witness :
  calc_cov_from_data (zeros3 2 10 3) (length_mask [5; 8] 10) 5 true 0
  = Raise (ValueError T_too_long).
Proof.
  apply (proj1 calc_cov_from_data_value_error
               (zeros3 2 10 3) (length_mask [5; 8] 10) 5 true 0%Q).
  - cbn. lia.
  - exists 0. split; [cbn; lia | vm_compute; lia].
Defined.

(** *** Elementwise operations on matrices of one shape *)

Lemma map2_2_shape (op : Q -> Q -> Q) (A B : Tensor2) :
  rows A = rows B -> cols A = cols B ->
  rows (map2_2 op A B) = rows A /\ cols (map2_2 op A B) = cols A.
Proof.
  intros Hr Hc. unfold map2_2. cbn [rows cols].
  rewrite <- Hr, <- Hc, !bdim_same. auto.
Qed.

Lemma map2_2_at (op : Q -> Q -> Q) (A B : Tensor2) (i j : nat) :
  rows A = rows B -> cols A = cols B -> i < rows A -> j < cols A ->
  at2 (map2_2 op A B) i j = op (at2 A i j) (at2 B i j).
Proof.
  intros Hr Hc Hi Hj. unfold map2_2. cbn [at2].
  rewrite <- Hr, <- Hc, !bidx_lt by assumption. reflexivity.
Qed.

(** *** Valid windows *)

Lemma forallb_ext_all (A : Type) (f g : A -> bool) (l : list A) :
  (forall x, f x = g x) -> forallb f l = forallb g l.
Proof. intros H. induction l as [|x l IH]; cbn; [|rewrite H, IH]; reflexivity. Qed.

Lemma cv_mask_float_shape (mask : BoolTensor2) (T : nat) :
  rows (cv_mask_float mask T) = brows mask * (bcols mask - T + 1)
  /\ cols (cv_mask_float mask T) = 1.
Proof.
  unfold cv_mask_float, float_flatten_unsqueeze1, all_dim2, bunfold2_dim1.
  cbn [rows cols brows bcols b3_0 b3_1]. rewrite Nat.div_1_r. auto.
Qed.

Lemma cv_mask_float_at (mask : BoolTensor2) (T b w j : nat) :
  w < bcols mask - T + 1 ->
  at2 (cv_mask_float mask T) (b * (bcols mask - T + 1) + w) j
  = if window_valid mask T b w then 1%Q else 0%Q.
Proof.
  intros Hw. unfold cv_mask_float, float_flatten_unsqueeze1, all_dim2, bunfold2_dim1.
  cbn [at2 brows bcols b3_0 b3_1 b3_2 bat2 bat3]. rewrite Nat.div_1_r.
  rewrite flat_div, flat_mod by exact Hw.
  unfold window_valid.
  rewrite (@forallb_ext_all _ _ (fun n => bat2 mask b (w + n)));
    [reflexivity | intros n; rewrite Nat.mul_1_r; reflexivity].
Qed.

Lemma cv_mask_float_nonneg (mask : BoolTensor2) (T n j : nat) :
  (0 <= at2 (cv_mask_float mask T) n j)%Q.
Proof.
  unfold cv_mask_float, float_flatten_unsqueeze1. cbn [at2].
  destruct (bat2 _ _ _); lra.
Qed.

Lemma n_valid_pos (mask : BoolTensor2) (T b w : nat) :
  b < brows mask -> w + T <= bcols mask -> window_valid mask T b w = true ->
  (0 < sum2 (cv_mask_float mask T))%Q.
Proof.
  intros Hb Hw Hv. unfold sum2.
  destruct (cv_mask_float_shape mask T) as [-> ->].
  apply sum_upto_pos with (k := b * (bcols mask - T + 1) + w).
  - intros i _. apply sum_upto_nonneg. intros. apply cv_mask_float_nonneg.
  - apply flat_lt; lia.
  - cbn [sum_upto]. rewrite cv_mask_float_at by lia. rewrite Hv. lra.
Qed.

(** A mask that encodes sequence lengths, as the docstring describes it,
    counts a whole prefix: under the length precondition its first window
    is valid. *)
Lemma row_count_length_mask (lens : list nat) (L b : nat) :
  row_count (length_mask lens L) b = Nat.min (nth b lens 0) L.
Proof.
  unfold row_count, length_mask. cbn [bcols bat2].
  generalize (nth b lens 0) as len. intros len.
  induction L as [|L IH].
  - rewrite Nat.min_0_r. reflexivity.
  - rewrite seq_S, filter_app, length_app, IH. cbn [filter Nat.add].
    destruct (Nat.ltb_spec L len); cbn [List.length]; lia.
Qed.

Lemma length_mask_valid_window (lens : list nat) (L T : nat) :
  length_precondition (length_mask lens L) T ->
  exists b w, b < brows (length_mask lens L) /\ w + T <= bcols (length_mask lens L)
              /\ window_valid (length_mask lens L) T b w = true.
Proof.
  intros [HB Hlen]. exists 0, 0. specialize (Hlen 0 HB).
  rewrite row_count_length_mask in Hlen.
  split; [exact HB|]. split; [cbn [bcols length_mask]; lia|].
  unfold window_valid, length_mask. cbn [bat2]. apply forallb_forall.
  intros n Hn. apply in_seq in Hn. apply Nat.ltb_lt. lia.
Qed.

Lemma cv_cov_est_shape (lags mask_float : Tensor2) (n : nat) :
  cols lags = n -> cols mask_float = 1 ->
  shape2 (cv_cov_est lags mask_float) = (n, n).
Proof.
  intros Hl Hm. unfold shape2, cv_cov_est, div2_scalar, matmul, t, sum2_dim0_keepdim,
    mul2, sub2, map2_2.
  cbn [rows cols]. rewrite Hl, Hm, !bdim_one_r, !bdim_same. reflexivity.
Qed.

Lemma cv_lags_cols (xs_pad : Tensor3) (T : nat) :
  cols (cv_lags xs_pad T) = T * n3_2 xs_pad.
Proof. reflexivity. Qed.

(** *** Regularization *)

Lemma map2_2_shape_in (F : Type) (op : F -> F -> F) (A B : Tensor2_of F) :
  rows A = rows B -> cols A = cols B ->
  rows (map2_2 op A B) = rows A /\ cols (map2_2 op A B) = cols A.
Proof.
  intros Hr Hc. unfold map2_2. cbn [rows cols].
  rewrite <- Hr, <- Hc, !bdim_same. auto.
Qed.

Lemma map2_2_at_in (F : Type) (op : F -> F -> F) (A B : Tensor2_of F) (i j : nat) :
  rows A = rows B -> cols A = cols B -> i < rows A -> j < cols A ->
  at2 (map2_2 op A B) i j = op (at2 A i j) (at2 B i j).
Proof.
  intros Hr Hc Hi Hj. unfold map2_2. cbn [at2].
  rewrite <- Hr, <- Hc, !bidx_lt by assumption. reflexivity.
Qed.

Lemma cv_cov_est_in_shape (F : Type) (dt : Dtype F) (lags mask_float : Tensor2_of F)
    (n : nat) :
  cols lags = n -> cols mask_float = 1 ->
  shape2 (cv_cov_est_in dt lags mask_float) = (n, n).
Proof.
  intros Hl Hm.
  unfold shape2, cv_cov_est_in, div2_scalar_in, matmul_in, t, sum2_dim0_keepdim_in,
    mul2_in, sub2_in, map2_2.
  cbn [rows cols]. rewrite Hl, Hm, !bdim_one_r, !bdim_same. reflexivity.
Qed.

Lemma matrix_toeplitzify_in_shape (F : Type) (dt : Dtype F) (cov : Tensor2_of F)
    (T d : nat) :
  shape2 (matrix_toeplitzify_in dt cov T d) = (T * d, T * d).
Proof. reflexivity. Qed.

Lemma row_count_le (mask : BoolTensor2) (b : nat) : row_count mask b <= bcols mask.
Proof.
  unfold row_count.
  etransitivity; [apply filter_length_le|]. rewrite length_seq. reflexivity.
Qed.

(** The two calls differ in the last assignment only. *)
Lemma calc_cov_from_data_in_reg (F : Type) (dt : Dtype F) (xs_pad : Tensor3_of F)
    (src_mask : BoolTensor2) (T : nat) (toeplitzify : bool) (r : Q) (C0 : Tensor2_of F) :
  (0 < r)%Q ->
  calc_cov_from_data_in dt xs_pad src_mask T toeplitzify 0 = Return C0 ->
  exists Cr,
    calc_cov_from_data_in dt xs_pad src_mask T toeplitzify r = Return Cr
    /\ shape2 C0 = (T * n3_2 xs_pad, T * n3_2 xs_pad)
    /\ shape2 Cr = (T * n3_2 xs_pad, T * n3_2 xs_pad)
    /\ forall i j, i < T * n3_2 xs_pad -> j < T * n3_2 xs_pad ->
         at2 Cr i j
         = dt_add dt (at2 C0 i j)
             (dt_mul dt (dt_cast dt r) (dt_cast dt (if i =? j then 1 else 0))).
Proof.
  intros Hr. rewrite !calc_cov_from_data_in_unfold.
  destruct (min_list (bsum_dim1 src_mask)) as [m|]; [|discriminate].
  destruct (m <=? T); [discriminate|].
  destruct (negb (windows_agree xs_pad src_mask T)); [discriminate|].
  cbv zeta. apply Qltb_lt in Hr. rewrite Hr. change (Qltb 0 0) with false. cbv iota.
  set (d := n3_2 xs_pad).
  set (C := if toeplitzify then _ else _).
  intros H. injection H as <-.
  assert (HC : shape2 C = (T * d, T * d)).
  { subst C. destruct toeplitzify.
    - apply matrix_toeplitzify_in_shape.
    - apply cv_cov_est_in_shape; reflexivity. }
  assert (HCr : rows C = T * d) by (unfold shape2 in HC; congruence).
  assert (HCc : cols C = T * d) by (unfold shape2 in HC; congruence).
  set (E1 := scalar_mul2_in dt (dt_cast dt r) (eye_in dt (T * d) (T * d))).
  assert (HEr : rows C = rows E1) by (rewrite HCr; reflexivity).
  assert (HEc : cols C = cols E1) by (rewrite HCc; reflexivity).
  destruct (map2_2_shape_in (dt_add dt) C E1 HEr HEc) as [Hr1 Hc1].
  eexists. split; [reflexivity|]. split; [exact HC|]. split.
  - unfold shape2, add2_in. rewrite Hr1, Hc1, HCr, HCc. reflexivity.
  - intros i j Hi Hj. unfold add2_in.
    rewrite map2_2_at_in by (assumption || (rewrite ?HCr, ?HCc; assumption)).
    subst E1. unfold scalar_mul2_in, eye_in. cbn [at2].
    destruct (i =? j); reflexivity.
Qed.

Lemma calc_cov_from_data_reg (xs_pad : Tensor3) (src_mask : BoolTensor2) (T : nat)
    (toeplitzify : bool) (r : Q) :
  0 < T -> 0 < n3_2 xs_pad ->
  brows src_mask = n3_0 xs_pad -> bcols src_mask = n3_1 xs_pad ->
  length_precondition src_mask T ->
  (exists b w, b < brows src_mask /\ w + T <= bcols src_mask
               /\ window_valid src_mask T b w = true) ->
  (0 < r)%Q ->
  reg_difference_is_ridge xs_pad src_mask T toeplitzify r.
Proof.
  intros HT Hd Hrows Hcols [HB Hlen] (b & w & Hb & Hw & Hv) Hr.
  unfold reg_difference_is_ridge. rewrite !calc_cov_from_data_unfold.
  destruct (@shortest_spec src_mask HB) as (m & -> & (b0 & Hb0 & E0) & _).
  specialize (Hlen b0 Hb0).
  destruct (Nat.leb_spec m T) as [Hm|_]; [lia|].
  pose proof (row_count_le src_mask b0) as Hle.
  rewrite (@windows_agree_same_shape _ xs_pad src_mask T) by (assumption || lia).
  cbn [negb].
  pose proof (@n_valid_pos src_mask T b w Hb Hw Hv) as Hpos.
  destruct (Qeq_bool _ 0) eqn:E.
  { apply Qeq_bool_iff in E. rewrite E in Hpos. lra. }
  cbv zeta. set (d := n3_2 xs_pad).
  set (C := if toeplitzify then _ else _).
  assert (HC : rows C = T * d /\ cols C = T * d).
  { subst C. destruct toeplitzify.
    - split; [apply matrix_toeplitzify_rows | apply matrix_toeplitzify_cols].
    - pose proof (@cv_cov_est_shape (cv_lags xs_pad T) (cv_mask_float src_mask T)
                    (T * d) (cv_lags_cols xs_pad T)
                    (proj2 (cv_mask_float_shape src_mask T))) as Hs.
      unfold shape2 in Hs. split; congruence. }
  destruct HC as [HCr HCc].
  exists (cv_regularized C (T * d) 0), (cv_regularized C (T * d) r).
  split; [reflexivity|]. split; [reflexivity|].
  unfold cv_regularized. apply Qltb_lt in Hr. rewrite Hr.
  change (Qltb 0 0) with false. cbv iota.
  set (E1 := scalar_mul2 r (eye (T * d) (T * d))).
  assert (HEr : rows C = rows E1) by (rewrite HCr; reflexivity).
  assert (HEc : cols C = cols E1) by (rewrite HCc; reflexivity).
  destruct (map2_2_shape Qplus C E1 HEr HEc) as [Hr1 Hc1].
  split; [unfold shape2; rewrite HCr, HCc; reflexivity|]. split.
  - unfold shape2, add2. rewrite Hr1, Hc1, HCr, HCc. reflexivity.
  - intros i j Hi Hj. unfold add2.
    rewrite map2_2_at by (assumption || (rewrite ?HCr, ?HCc; assumption)).
    subst E1. unfold scalar_mul2, eye. cbn [at2].
    destruct (i =? j); ring.
Qed.

(** C8, amended.  In the arithmetic of any element type, float32
    included: when the call with [reg = 0] returns [C0], the call with
    [reg = r > 0] returns the matrix whose entry [(i, j)] is that of [C0]
    plus [r] times the entry of the identity, one rounded product and one
    rounded sum.  In exact arithmetic, for a batch with [d > 0], a mask of
    the shape of the batch, [T > 0], every sequence with more than [T]
    valid timesteps and at least one window of [T] consecutive valid
    timesteps, both calls return and the difference of the outputs is [r]
    on the diagonal and 0 off it, with or without the Toeplitz averaging; a
    mask that encodes sequence lengths has such a window. *)
Theorem calc_cov_from_data_reg_shift :
  (forall (F : Type) (dt : Dtype F) (xs_pad : Tensor3_of F) (src_mask : BoolTensor2)
          (T : nat) (toeplitzify : bool) (r : Q) (C0 : Tensor2_of F),
     (0 < r)%Q ->
     calc_cov_from_data_in dt xs_pad src_mask T toeplitzify 0 = Return C0 ->
     exists Cr,
       calc_cov_from_data_in dt xs_pad src_mask T toeplitzify r = Return Cr
       /\ shape2 C0 = (T * n3_2 xs_pad, T * n3_2 xs_pad)
       /\ shape2 Cr = (T * n3_2 xs_pad, T * n3_2 xs_pad)
       /\ forall i j, i < T * n3_2 xs_pad -> j < T * n3_2 xs_pad ->
            at2 Cr i j
            = dt_add dt (at2 C0 i j)
                (dt_mul dt (dt_cast dt r) (dt_cast dt (if i =? j then 1 else 0))))
  /\ (forall (xs_pad : Tensor3) (src_mask : BoolTensor2) (T : nat) (toeplitzify : bool)
             (r : Q),
        0 < T -> 0 < n3_2 xs_pad ->
        brows src_mask = n3_0 xs_pad -> bcols src_mask = n3_1 xs_pad ->
        length_precondition src_mask T ->
        (exists b w, b < brows src_mask /\ w + T <= bcols src_mask
                     /\ window_valid src_mask T b w = true) ->
        (0 < r)%Q ->
        reg_difference_is_ridge xs_pad src_mask T toeplitzify r)
  /\ (forall (xs_pad : Tensor3) (lens : list nat) (T : nat) (toeplitzify : bool) (r : Q),
        0 < T -> 0 < n3_2 xs_pad -> List.length lens = n3_0 xs_pad ->
        length_precondition (length_mask lens (n3_1 xs_pad)) T ->
        (0 < r)%Q ->
        reg_difference_is_ridge xs_pad (length_mask lens (n3_1 xs_pad)) T toeplitzify r).
Proof.
  split; [|split].
  - intros F dt xs_pad src_mask T tz r C0. apply calc_cov_from_data_in_reg.
  - intros xs_pad src_mask T tz r. apply calc_cov_from_data_reg.
  - intros xs_pad lens T tz r HT Hd Hlen Hpre Hr.
    apply calc_cov_from_data_reg; try assumption; try reflexivity.
    apply length_mask_valid_window, Hpre.
Qed.

Lemma calc_cov_from_data_reg_shift_witness :
  reg_difference_is_ridge ramp_batch ramp_mask 2 true (1 # 10).
Proof.
  apply (proj1 (proj2 calc_cov_from_data_reg_shift) ramp_batch ramp_mask 2 true (1 # 10)).
  - lia.
  - cbn. lia.
  - reflexivity.
  - reflexivity.
  - split; [cbn; lia|]. intros b Hb. change (b < 1) in Hb.
    replace b with 0 by lia. vm_compute. lia.
  - exists 0, 0. split; [cbn; lia|]. split; [cbn; lia | reflexivity].
  - reflexivity.
Defined.


(** C8 as stated fails in float32.  For the sequence 1, ..., 6 with
    [T = 2], where every sum is exact, the output with [reg = 0] has all
    entries 2; with [reg] the float32 nearest to 0.1 the diagonal is
    [2 + reg] rounded, 2.099999904632568359375, and the difference of the
    two outputs is 0.099999904632568359375 on the diagonal, not [reg]. *)
Lemma reg_difference_float32 :
  length_precondition ramp_mask 2 /\ (0 < example_reg)%Q
  /\ f32_value (f32_cast example_reg) = Some example_reg
  /\ f32_result_rows
       (calc_cov_from_data_in binary32 (cast3 binary32 ramp_batch) ramp_mask 2 false 0)
     = Some [[Some 2; Some 2]; [Some 2; Some 2]]%Q
  /\ f32_result_rows
       (calc_cov_from_data_in binary32 (cast3 binary32 ramp_batch) ramp_mask 2 false
          example_reg)
     = Some [[Some (4404019 # 2097152); Some 2]; [Some 2; Some (4404019 # 2097152)]]%Q
  /\ ~ ((4404019 # 2097152) - 2 == example_reg)%Q
  /\ f32_value (f32_sub (f32_cast (4404019 # 2097152)) (f32_cast 2))
     = Some (209715 # 2097152)%Q
  /\ ~ (209715 # 2097152 == example_reg)%Q.
Proof.
  split.
  { split; [cbn; lia|]. intros b Hb. change (b < 1) in Hb.
    replace b with 0 by lia. vm_compute. lia. }
  split; [reflexivity|]. split; [vm_compute; reflexivity|].
  split; [vm_compute; reflexivity|]. split; [vm_compute; reflexivity|].
  split; [intros H; discriminate H|]. split; [vm_compute; reflexivity|].
  intros H; discriminate H.
Qed.

Lemma cv_cov_est_at (lags mask_float : Tensor2) (k1 k2 : nat) :
  rows mask_float = rows lags -> cols mask_float = 1 ->
  k1 < cols lags -> k2 < cols lags ->
  (at2 (cv_cov_est lags mask_float) k1 k2 == masked_cov lags mask_float k1 k2)%Q.
Proof.
  intros Hr Hc H1 H2.
  unfold cv_cov_est, div2_scalar, matmul, t, sum2_dim0_keepdim, mul2, sub2, map2_2.
  cbn [rows cols at2]. rewrite Hr, Hc, !bdim_one_r, !bdim_same.
  rewrite !(@bidx_lt (cols lags) k1), !(@bidx_lt (cols lags) k2) by assumption.
  cbn [bidx Nat.eqb].
  unfold masked_cov. apply Qmult_comp; [|reflexivity].
  assert (Hmean : forall k,
            (sum_upto (rows lags)
               (fun i => at2 lags (bidx (rows lags) i) k
                         * at2 mask_float (bidx (rows lags) i) 0) / sum2 mask_float
             == masked_mean lags mask_float k)%Q).
  { intros k. unfold masked_mean. apply Qmult_comp; [|reflexivity].
    apply sum_upto_ext. intros i Hi. rewrite bidx_lt by exact Hi. reflexivity. }
  apply sum_upto_ext. intros i Hi.
  rewrite !Hmean, !(@bidx_lt (rows lags) i) by exact Hi. reflexivity.
Qed.

(** *** Sliding windows *)

Section Windows.

Variables (X : Tensor3) (B L d T : nat).
Hypothesis HXB : n3_0 X = B.
Hypothesis HXL : n3_1 X = L.
Hypothesis HXd : n3_2 X = d.
Hypothesis Hd : 0 < d.
Hypothesis HT : 0 < T.
Hypothesis HTL : T <= L.

Lemma cv_lags_rows : rows (cv_lags X T) = B * (L - T + 1).
Proof.
  unfold cv_lags, numel3, unfold2_dim1, view2. cbn [rows cols n3_0 n3_1 n3_2].
  rewrite HXB, HXL, HXd.
  replace (L * d - T * d) with ((L - T) * d) by nia.
  rewrite !Nat.div_mul by nia. reflexivity.
Qed.

Lemma cv_lags_at (b w k : nat) :
  w < L - T + 1 -> k < T * d ->
  at2 (cv_lags X T) (b * (L - T + 1) + w) k = at3 X b (w + k / d) (k mod d).
Proof.
  intros Hw Hk. unfold cv_lags, view2 at 1. cbn [at2]. rewrite HXB, HXL, HXd.
  set (U := unfold2_dim1 _ _ _).
  assert (HU : n3_1 U = L - T + 1 /\ n3_2 U = T * d).
  { subst U. unfold unfold2_dim1, view2. cbn [n3_1 n3_2 cols].
    replace (L * d - T * d) with ((L - T) * d) by nia.
    rewrite Nat.div_mul by lia. auto. }
  destruct HU as [U1 U2].
  replace ((b * (L - T + 1) + w) * (T * d) + k)
    with ((b * n3_1 U + w) * n3_2 U + k) by (rewrite U1, U2; reflexivity).
  rewrite ravel3_flat by (rewrite ?U1, ?U2; assumption).
  subst U. unfold unfold2_dim1, view2. cbn [at3 at2].
  assert (Hkd : k / d < T) by (apply Nat.Div0.div_lt_upper_bound; lia).
  pose proof (Nat.div_mod_eq k d) as Ek.
  pose proof (Nat.mod_upper_bound k d ltac:(lia)) as Hm.
  replace (b * (L * d) + (w * d + k))
    with ((b * n3_1 X + (w + k / d)) * n3_2 X + k mod d)
    by (rewrite HXL, HXd; nia).
  apply ravel3_flat; rewrite ?HXL, ?HXd; [lia | exact Hm].
Qed.

End Windows.

(** *** Sums and lookups over lists built by [flat_map] *)

Lemma sum_list_app (l1 l2 : list Q) :
  (sum_list (l1 ++ l2) == sum_list l1 + sum_list l2)%Q.
Proof.
  induction l1 as [|x l1 IH]; cbn [app sum_list].
  - ring.
  - rewrite IH. ring.
Qed.

Lemma sum_list_map_seq (n : nat) (f : nat -> Q) :
  (sum_list (map f (seq 0 n)) == sum_upto n f)%Q.
Proof.
  induction n as [|n IH].
  - reflexivity.
  - rewrite seq_S, map_app, sum_list_app, IH. cbn. ring.
Qed.

Lemma sum_list_flat_map (g : list Q -> Q) (h : nat -> list (list Q)) (n : nat) :
  (sum_list (map g (flat_map h (seq 0 n)))
   == sum_upto n (fun b => sum_list (map g (h b))))%Q.
Proof.
  induction n as [|n IH].
  - reflexivity.
  - rewrite seq_S, flat_map_app, map_app, sum_list_app, IH.
    cbn [flat_map sum_upto Nat.add]. rewrite app_nil_r. reflexivity.
Qed.

Lemma length_flat_map_rows (A : Type) (f : nat -> list A) (d n : nat) :
  (forall t, List.length (f t) = d) ->
  List.length (flat_map f (seq 0 n)) = n * d.
Proof.
  intros H. induction n as [|n IH].
  - reflexivity.
  - rewrite seq_S, flat_map_app, length_app, IH.
    cbn [flat_map Nat.add]. rewrite app_nil_r, H. lia.
Qed.

Lemma nth_map_seq (f : nat -> Q) (n i : nat) :
  i < n -> nth i (map f (seq 0 n)) 0%Q = f i.
Proof.
  intros H. rewrite (nth_indep _ 0%Q (f 0)) by (rewrite length_map, length_seq; exact H).
  rewrite map_nth, seq_nth by exact H. reflexivity.
Qed.

Lemma nth_flat_map_rows (f : nat -> list Q) (d n k : nat) :
  (forall t, List.length (f t) = d) -> k < n * d ->
  nth k (flat_map f (seq 0 n)) 0%Q = nth (k mod d) (f (k / d)) 0%Q.
Proof.
  intros H. induction n as [|n IH]; intros Hk; [lia|].
  rewrite seq_S, flat_map_app. cbn [flat_map Nat.add]. rewrite app_nil_r.
  pose proof (length_flat_map_rows f n H) as Hlen.
  destruct (Nat.lt_ge_cases k (n * d)) as [Hlt|Hge].
  - rewrite app_nth1 by lia. apply IH, Hlt.
  - rewrite app_nth2 by lia. rewrite Hlen.
    replace k with (n * d + (k - n * d)) at 2 3 by lia.
    rewrite flat_div, flat_mod by lia. reflexivity.
Qed.

Lemma lagged_vector_nth (X : Tensor3) (T b w k : nat) :
  k < T * n3_2 X ->
  nth k (lagged_vector X T b w) 0%Q = at3 X b (w + k / n3_2 X) (k mod n3_2 X).
Proof.
  intros Hk. unfold lagged_vector.
  rewrite (@nth_flat_map_rows _ (n3_2 X)) by
    (try exact Hk; intros; rewrite length_map, length_seq; reflexivity).
  apply nth_map_seq. apply Nat.mod_upper_bound. lia.
Qed.

Lemma lagged_vectors_length (X : Tensor3) (T : nat) :
  List.length (lagged_vectors X T) = n3_0 X * (n3_1 X - T + 1).
Proof.
  unfold lagged_vectors. apply length_flat_map_rows.
  intros b. rewrite length_map, length_seq. reflexivity.
Qed.

Lemma sum_lagged_vectors (X : Tensor3) (T : nat) (g : list Q -> Q) :
  (sum_list (map g (lagged_vectors X T))
   == sum_upto (n3_0 X * (n3_1 X - T + 1))
        (fun n => g (lagged_vector X T (n / (n3_1 X - T + 1)) (n mod (n3_1 X - T + 1)))))%Q.
Proof.
  unfold lagged_vectors. rewrite sum_list_flat_map, sum_upto_blocks.
  apply sum_upto_ext. intros b _.
  rewrite map_map, sum_list_map_seq.
  apply sum_upto_ext. intros w Hw.
  rewrite flat_div, flat_mod by exact Hw. reflexivity.
Qed.

(** *** An all-true mask *)

Lemma filter_all (A : Type) (f : A -> bool) (l : list A) :
  (forall x, In x l -> f x = true) -> filter f l = l.
Proof.
  induction l as [|x l IH]; intros H; cbn [filter]; [reflexivity|].
  rewrite (H x (or_introl eq_refl)), IH; [reflexivity|].
  intros y Hy. apply H. right. exact Hy.
Qed.

Section AllValid.

Variables (X : Tensor3) (mask : BoolTensor2) (B L d T : nat).
Hypothesis HXB : n3_0 X = B.
Hypothesis HXL : n3_1 X = L.
Hypothesis HXd : n3_2 X = d.
Hypothesis HB : 0 < B.
Hypothesis Hd : 0 < d.
Hypothesis HT : 0 < T.
Hypothesis Hrows : brows mask = B.
Hypothesis Hcols : bcols mask = L.
Hypothesis Hall : forall b i, b < B -> i < L -> bat2 mask b i = true.
Hypothesis HTL : T < L.

Lemma row_count_all (b : nat) : b < B -> row_count mask b = L.
Proof.
  intros Hb. unfold row_count. rewrite filter_all, length_seq; [exact Hcols|].
  intros i Hi. apply in_seq in Hi. apply Hall; lia.
Qed.

Lemma window_valid_all (b w : nat) :
  b < B -> w < L - T + 1 -> window_valid mask T b w = true.
Proof.
  intros Hb Hw. unfold window_valid. apply forallb_forall.
  intros n Hn. apply in_seq in Hn. apply Hall; lia.
Qed.

Lemma mask_float_all (n j : nat) :
  n < B * (L - T + 1) -> at2 (cv_mask_float mask T) n j = 1%Q.
Proof.
  intros Hn. destruct (@block_index B (L - T + 1) n Hn) as (E & H1 & H2).
  pose proof (window_valid_all H1 H2) as Hv.
  rewrite E. rewrite <- Hcols in H2 |- *.
  rewrite cv_mask_float_at by exact H2. rewrite <- Hcols in Hv. rewrite Hv.
  reflexivity.
Qed.

Lemma mask_float_rows : rows (cv_mask_float mask T) = B * (L - T + 1).
Proof.
  rewrite (proj1 (cv_mask_float_shape mask T)), Hrows, Hcols. reflexivity.
Qed.

Lemma n_valid_all : (sum2 (cv_mask_float mask T) == Qnat (B * (L - T + 1)))%Q.
Proof.
  unfold sum2. rewrite mask_float_rows, (proj2 (cv_mask_float_shape mask T)).
  rewrite (@sum_upto_ext (B * (L - T + 1)) _ (fun _ => 1%Q)).
  - rewrite sum_upto_const. ring.
  - intros n Hn. cbn [sum_upto]. rewrite mask_float_all by exact Hn. ring.
Qed.

Lemma lags_row (n k : nat) :
  n < B * (L - T + 1) -> k < T * d ->
  at2 (cv_lags X T) n k
  = nth k (lagged_vector X T (n / (L - T + 1)) (n mod (L - T + 1))) 0%Q.
Proof.
  intros Hn Hk. destruct (@block_index B (L - T + 1) n Hn) as (E & H1 & H2).
  rewrite E at 1. rewrite lagged_vector_nth by (rewrite HXd; exact Hk).
  rewrite HXd. apply (@cv_lags_at X B L d T HXB HXL HXd Hd); (assumption || lia).
Qed.

Lemma masked_mean_all (k : nat) :
  k < T * d ->
  (masked_mean (cv_lags X T) (cv_mask_float mask T) k
   == mean_of (lagged_vectors X T) k)%Q.
Proof.
  intros Hk. unfold masked_mean, mean_of.
  rewrite n_valid_all, lagged_vectors_length, HXB, HXL.
  apply Qmult_comp; [|reflexivity].
  rewrite (sum_lagged_vectors X T (fun v => nth k v 0%Q)), HXB, HXL.
  rewrite (@cv_lags_rows X B L d T HXB HXL HXd Hd) by lia.
  apply sum_upto_ext. intros n Hn.
  rewrite mask_float_all, lags_row by assumption. ring.
Qed.

Lemma masked_cov_all (k1 k2 : nat) :
  k1 < T * d -> k2 < T * d ->
  (masked_cov (cv_lags X T) (cv_mask_float mask T) k1 k2
   == empirical_cov (lagged_vectors X T) k1 k2)%Q.
Proof.
  intros H1 H2. unfold masked_cov, empirical_cov.
  rewrite n_valid_all, lagged_vectors_length, HXB, HXL.
  apply Qmult_comp; [|reflexivity].
  rewrite (sum_lagged_vectors X T
             (fun v => (nth k1 v 0 - mean_of (lagged_vectors X T) k1)
                       * (nth k2 v 0 - mean_of (lagged_vectors X T) k2))%Q).
  rewrite HXB, HXL.
  rewrite (@cv_lags_rows X B L d T HXB HXL HXd Hd) by lia.
  apply sum_upto_ext. intros n Hn.
  rewrite mask_float_all, !lags_row, !masked_mean_all by assumption. ring.
Qed.

End AllValid.

(** C6. With an all-true mask, [reg = 0], no Toeplitz averaging and
    sequences longer than [T], [calc_cov_from_data] returns the empirical
    covariance of the [B * (L - T + 1)] lagged vectors of the sliding
    windows: the average of the outer products of the vectors minus their
    mean.  For the sequence 1, ..., 6 and [T = 2] the lagged vectors are
    [1,2], [2,3], [3,4], [4,5], [5,6] and the covariance has all four
    entries equal to 2. *)
Theorem calc_cov_from_data_all_valid :
  (forall (X : Tensor3) (mask : BoolTensor2) (T : nat),
     0 < n3_0 X -> 0 < n3_2 X -> 0 < T ->
     brows mask = n3_0 X -> bcols mask = n3_1 X ->
     (forall b i, b < brows mask -> i < bcols mask -> bat2 mask b i = true) ->
     T < n3_1 X ->
     exists C,
       calc_cov_from_data X mask T false 0 = Return (FiniteT C)
       /\ shape2 C = (T * n3_2 X, T * n3_2 X)
       /\ List.length (lagged_vectors X T) = n3_0 X * (n3_1 X - T + 1)
       /\ forall k1 k2, k1 < T * n3_2 X -> k2 < T * n3_2 X ->
            (at2 C k1 k2 == empirical_cov (lagged_vectors X T) k1 k2)%Q)
  /\ lagged_vectors ramp_batch 2 = [[1; 2]; [2; 3]; [3; 4]; [4; 5]; [5; 6]]%Q
  /\ finite_rows (calc_cov_from_data ramp_batch ramp_mask 2 false 0)
     = Some [[2; 2]; [2; 2]]%Q.
Proof.
  split; [|split; [reflexivity | vm_compute; reflexivity]].
  intros X mask T HB Hd HT Hrows Hcols Hall HTL.
  rewrite calc_cov_from_data_unfold.
  assert (HB' : 0 < brows mask) by lia.
  assert (Hall' : forall b i, b < n3_0 X -> i < n3_1 X -> bat2 mask b i = true).
  { intros b i Hb Hi. apply Hall; [rewrite Hrows | rewrite Hcols]; assumption. }
  pose proof (@row_count_all X mask _ _ _ T eq_refl eq_refl eq_refl
                HB Hd HT Hrows Hcols Hall' HTL) as Hcount.
  pose proof (@n_valid_all X mask _ _ _ T eq_refl eq_refl eq_refl
                HB Hd HT Hrows Hcols Hall' HTL) as Hn.
  destruct (@shortest_spec mask HB') as (m & -> & (b0 & Hb0 & E0) & _).
  rewrite Hcount in E0 by lia. subst m.
  destruct (Nat.leb_spec (n3_1 X) T) as [Hm|_]; [lia|].
  rewrite (@windows_agree_same_shape _ X mask T) by (assumption || lia).
  cbn [negb].
  destruct (Qeq_bool _ 0) eqn:E.
  { apply Qeq_bool_iff in E. rewrite E in Hn.
    assert (0 < Qnat (n3_0 X * (n3_1 X - T + 1)))%Q by (apply Qnat_pos; nia).
    lra. }
  exists (cv_cov_est (cv_lags X T) (cv_mask_float mask T)).
  split; [reflexivity|]. split; [|split].
  - apply cv_cov_est_shape; [apply cv_lags_cols | apply cv_mask_float_shape].
  - apply lagged_vectors_length.
  - intros k1 k2 H1 H2.
    rewrite cv_cov_est_at.
    + apply (@masked_cov_all X mask _ _ _ T eq_refl eq_refl eq_refl
               HB Hd HT Hrows Hcols Hall' HTL); assumption.
    + rewrite (@cv_lags_rows X _ _ _ T eq_refl eq_refl eq_refl Hd HT) by lia.
      apply (@mask_float_rows mask _ _ T Hrows Hcols).
    + apply cv_mask_float_shape.
    + exact H1.
    + exact H2.
Qed.

Lemma calc_cov_from_data_all_valid_witness :
  exists C,
    calc_cov_from_data ramp_batch ramp_mask 2 false 0 = Return (FiniteT C)
    /\ shape2 C = (2 * n3_2 ramp_batch, 2 * n3_2 ramp_batch)
    /\ List.length (lagged_vectors ramp_batch 2)
       = n3_0 ramp_batch * (n3_1 ramp_batch - 2 + 1)
    /\ forall k1 k2, k1 < 2 * n3_2 ramp_batch -> k2 < 2 * n3_2 ramp_batch ->
         (at2 C k1 k2 == empirical_cov (lagged_vectors ramp_batch 2) k1 k2)%Q.
Proof.
  apply (proj1 calc_cov_from_data_all_valid ramp_batch ramp_mask 2).
  - cbn. lia.
  - cbn. lia.
  - lia.
  - reflexivity.
  - reflexivity.
  - intros b i Hb Hi. change (b < 1) in Hb. change (i < 6) in Hi.
    replace b with 0 by lia. apply Nat.ltb_lt. exact Hi.
  - cbn. lia.
Defined.

Example empirical_cov_1_to_6 :
  map (fun k1 =>
         map (fun k2 => Qred (empirical_cov (lagged_vectors ramp_batch 2) k1 k2)) [0; 1])
      [0; 1]
  = [[2; 2]; [2; 2]]%Q.
Proof. vm_compute. reflexivity. Qed.
